(** * TFunction.py: the function transformer, its composer and its plot range

    A shallow embedding of [src/TFunction.py].  The script is a Streamlit
    page that parses a base function [f(x)], builds a transformed expression
    from six optional transformations, samples both curves and chooses the
    y-limits of the plot; a second part draws a hidden parameter set and
    builds a "mystery" expression from it.

    What is embedded, and how:

    - SymPy expressions are trees ([Expr]).  The script builds them with
      Python operators ([input_expr - h], [b * input_expr], [-input_expr]),
      with [subs] and with [sp.Mul]/[sp.Add] under [evaluate=False].  The
      operators are embedded by the constructor call SymPy defines them as
      ([Expr.__sub__] is [Add(self, -other)], [Expr.__rmul__] is
      [Mul(other, self)], [Expr.__neg__] is [Mul(-1, self)]), and the
      [evaluate=False] constructors by the node they build.  The automatic
      canonicalisation SymPy runs inside an evaluated constructor keeps the
      value of the expression and is not represented: a tree here is the
      tree as the script asks for it.
      Where a property is about the identity of expressions (which
      object a variable names, whether an object is written after it was
      made), expressions are objects in a heap and variables hold
      references: lines 59-74 are embedded a second time on that heap, with
      [subs] as the walk SymPy does, returning the object itself where
      nothing was replaced.
    - The value of an expression is [eval], over the real numbers; the
      meaning of the named functions is a parameter.
    - The module-level variables of the script are a record ([Globals]);
      each statement is a store transformer.
    - NumPy samples are IEEE-754 binary64 values ([spec_float] of the
      standard library, precision 53, maximal exponent 1024), and the
      arithmetic of the y-limits is the IEEE arithmetic on them.
    - The parser ([sp.sympify]), the printer ([sp.latex]) and the compiler
      to NumPy ([sp.lambdify]) are parameters of the page: what they return
      is SymPy's business, what the script does with it is modelled.  So is
      what the libraries raise where the script has no [try]: the run then
      ends with the box of an uncaught exception.
    - For expressions made of numbers, [x], sums, products and powers the
      function [lambdify] generates is embedded as NumPy evaluates it, in
      IEEE arithmetic and without exceptions ([numpy_lambdify]); over an
      expression without [x] it returns a scalar, not an array. *)

From Stdlib Require Import ZArith QArith Reals Qreals Lra Lia List String Bool.
From Stdlib Require Import Floats.SpecFloat.
Import ListNotations.

(** ** Python and SymPy numbers *)

(** A Python number as a slider ([float]) or [random.choice] over the
    challenge menus ([int] or [float]) hands it to the script.  A float is
    held as the rational it denotes. *)
Inductive pynum : Type :=
| PyInt (n : Z)
| PyFloat (q : Q).

(** SymPy keeps the kinds apart: [Integer], [Rational] (what the parser
    makes of a quotient of integers) and [Float]. *)
Inductive Number : Type :=
| Integer (n : Z)
| Rational (q : Q)
| Float (q : Q).

(** ** Expressions

    A named constant ([pi], [E]) is a [Function] of no argument. *)

#[local] Unset Elimination Schemes.

Inductive Expr : Type :=
| Num (n : Number)
| Symbol (name : string)
| Add (args : list Expr)
| Mul (args : list Expr)
| Pow (base exponent : Expr)
| Function (name : string) (args : list Expr).

#[local] Set Elimination Schemes.

(** Structural induction through the argument lists. *)
Section ExprInduction.
Variable P : Expr -> Prop.
Hypothesis HNum : forall n, P (Num n).
Hypothesis HSymbol : forall s, P (Symbol s).
Hypothesis HAdd : forall args, Forall P args -> P (Add args).
Hypothesis HMul : forall args, Forall P args -> P (Mul args).
Hypothesis HPow : forall b e, P b -> P e -> P (Pow b e).
Hypothesis HFunction : forall f args, Forall P args -> P (Function f args).

Fixpoint Expr_nested_ind (e : Expr) : P e :=
  let all :=
    fix all (l : list Expr) : Forall P l :=
      match l with
      | [] => Forall_nil P
      | a :: l' => Forall_cons a (Expr_nested_ind a) (all l')
      end in
  match e with
  | Num n => HNum n
  | Symbol s => HSymbol s
  | Add args => HAdd args (all args)
  | Mul args => HMul args (all args)
  | Pow b e' => HPow b e' (Expr_nested_ind b) (Expr_nested_ind e')
  | Function f args => HFunction f args (all args)
  end.
End ExprInduction.

(** [sp.sympify] on a Python number. *)
Definition sympify_num (v : pynum) : Number :=
  match v with
  | PyInt n => Integer n
  | PyFloat q => Float q
  end.

(** Unary minus on a SymPy number. *)
Definition Number_neg (n : Number) : Number :=
  match n with
  | Integer z => Integer (- z)
  | Rational q => Rational (- q)
  | Float q => Float (- q)
  end.

(** Python's [v != w] on numbers compares values, whatever the kinds. *)
Definition py_value (v : pynum) : Q :=
  match v with
  | PyInt n => inject_Z n
  | PyFloat q => q
  end.

Definition py_ne (v w : pynum) : bool := negb (Qeq_bool (py_value v) (py_value w)).

(** [x = sp.Symbol('x')] (line 29). *)
Definition x : Expr := Symbol "x".

(** [e - h]: [Expr.__sub__] is [Add(self, -other)]. *)
Definition expr_sub (e : Expr) (h : pynum) : Expr :=
  Add [e; Num (Number_neg (sympify_num h))].

(** [b * e] with a Python number on the left: [Expr.__rmul__] is
    [Mul(other, self)]. *)
Definition expr_rmul (b : pynum) (e : Expr) : Expr :=
  Mul [Num (sympify_num b); e].

(** [-e]: [Expr.__neg__] is [Mul(S.NegativeOne, self)]. *)
Definition expr_neg (e : Expr) : Expr :=
  Mul [Num (Integer (-1)); e].

(** [sp.Mul(c, e, evaluate=False)] and [sp.Add(e, c, evaluate=False)]: the
    node over the two arguments as given. *)
Definition Mul_unevaluated (c : Number) (e : Expr) : Expr := Mul [Num c; e].
Definition Add_unevaluated (e : Expr) (c : Number) : Expr := Add [e; Num c].

(** [e.subs(Symbol(old), new)]: every occurrence of the symbol is replaced,
    the rest of the tree is rebuilt around it. *)
Fixpoint subs (old : string) (new : Expr) (e : Expr) : Expr :=
  match e with
  | Num n => Num n
  | Symbol s => if String.eqb s old then new else Symbol s
  | Add args => Add (map (subs old new) args)
  | Mul args => Mul (map (subs old new) args)
  | Pow b e' => Pow (subs old new b) (subs old new e')
  | Function f args => Function f (map (subs old new) args)
  end.

(** ** The value of an expression *)

Section Evaluation.
Local Open Scope R_scope.

(** The meaning of the named functions ([sin], [exp], [sqrt], ...) is
    left open. *)
Variable fn : string -> list R -> R.

Definition Number_value (n : Number) : R :=
  match n with
  | Integer z => IZR z
  | Rational q => Q2R q
  | Float q => Q2R q
  end.

(** A power: the integer power when the exponent is an integer, the real
    power [exp (e * ln b)] otherwise. *)
Definition Rpow (b e : R) : R :=
  if Req_dec_T (IZR (Int_part e)) e then powerRZ b (Int_part e) else Rpower b e.

Fixpoint eval (env : string -> R) (e : Expr) : R :=
  match e with
  | Num n => Number_value n
  | Symbol s => env s
  | Add args => fold_right (fun a acc => eval env a + acc) 0 args
  | Mul args => fold_right (fun a acc => eval env a * acc) 1 args
  | Pow b e' => Rpow (eval env b) (eval env e')
  | Function f args => fn f (map (eval env) args)
  end.

(** The environment with one symbol set. *)
Definition bind (s : string) (v : R) (env : string -> R) : string -> R :=
  fun s' => if String.eqb s' s then v else env s'.

(** The value of [e] at [x = v], every other symbol read from [env]. *)
Definition eval_at (env : string -> R) (e : Expr) (v : R) : R :=
  eval (bind "x" v env) e.
End Evaluation.

(** ** The controls (lines 40-56) *)

(** The six check boxes and four sliders of the page. *)
Record Widgets : Type := {
  checkbox_hshift : bool;    slider_h : Q;
  checkbox_hstretch : bool;  slider_b : Q;
  checkbox_reflect_y : bool;
  checkbox_vshift : bool;    slider_k : Q;
  checkbox_vstretch : bool;  slider_a : Q;
  checkbox_reflect_x : bool
}.

(** The variables the controls are read into. *)
Record TransformationSet : Type := {
  apply_hshift : bool;    h : pynum;
  apply_hstretch : bool;  b : pynum;
  apply_reflect_y : bool;
  apply_vshift : bool;    k : pynum;
  apply_vstretch : bool;  a : pynum;
  apply_reflect_x : bool
}.

(** [h = st.slider(...) if apply_hshift else 0.0], and so on: an unticked
    box leaves the identity value in the variable. *)
Definition read_controls (w : Widgets) : TransformationSet :=
  {| apply_hshift := checkbox_hshift w;
     h := if checkbox_hshift w then PyFloat (slider_h w) else PyFloat 0;
     apply_hstretch := checkbox_hstretch w;
     b := if checkbox_hstretch w then PyFloat (slider_b w) else PyFloat 1;
     apply_reflect_y := checkbox_reflect_y w;
     apply_vshift := checkbox_vshift w;
     k := if checkbox_vshift w then PyFloat (slider_k w) else PyFloat 0;
     apply_vstretch := checkbox_vstretch w;
     a := if checkbox_vstretch w then PyFloat (slider_a w) else PyFloat 1;
     apply_reflect_x := checkbox_reflect_x w |}.

(** ** The module-level variables and the statements over them *)

Record Globals : Type := {
  base_expr : Expr;
  input_expr : Expr;
  transformed_expr : Expr;
  challenge_input : Expr;
  challenge_expr : Expr
}.

Definition stmt : Type := Globals -> Globals.

Definition assign_input_expr (rhs : Globals -> Expr) : stmt := fun g =>
  {| base_expr := base_expr g; input_expr := rhs g;
     transformed_expr := transformed_expr g;
     challenge_input := challenge_input g; challenge_expr := challenge_expr g |}.

Definition assign_transformed_expr (rhs : Globals -> Expr) : stmt := fun g =>
  {| base_expr := base_expr g; input_expr := input_expr g;
     transformed_expr := rhs g;
     challenge_input := challenge_input g; challenge_expr := challenge_expr g |}.

Definition assign_challenge_input (rhs : Globals -> Expr) : stmt := fun g =>
  {| base_expr := base_expr g; input_expr := input_expr g;
     transformed_expr := transformed_expr g;
     challenge_input := rhs g; challenge_expr := challenge_expr g |}.

Definition assign_challenge_expr (rhs : Globals -> Expr) : stmt := fun g =>
  {| base_expr := base_expr g; input_expr := input_expr g;
     transformed_expr := transformed_expr g;
     challenge_input := challenge_input g; challenge_expr := rhs g |}.

Definition seq (s1 s2 : stmt) : stmt := fun g => s2 (s1 g).

(** [if c: s] *)
Definition when (c : bool) (s : stmt) : stmt := if c then s else fun g => g.

Declare Scope stmt_scope.
Delimit Scope stmt_scope with stmt.
Notation "s1 ;; s2" := (seq s1 s2) (at level 61, left associativity) : stmt_scope.

(** ** Build Transformed Expression (lines 59-74) *)

Definition build_transformed_expression (ts : TransformationSet) : stmt :=
  (assign_input_expr (fun _ => x) ;;
   when (apply_hshift ts)
     (assign_input_expr (fun g => expr_sub (input_expr g) (h ts))) ;;
   when (apply_hstretch ts)
     (assign_input_expr (fun g => expr_rmul (b ts) (input_expr g))) ;;
   when (apply_reflect_y ts)
     (assign_input_expr (fun g => expr_neg (input_expr g))) ;;
   assign_transformed_expr (fun g => subs "x" (input_expr g) (base_expr g)) ;;
   when (apply_vstretch ts)
     (assign_transformed_expr
        (fun g => Mul_unevaluated (sympify_num (a ts)) (transformed_expr g))) ;;
   when (apply_reflect_x ts)
     (assign_transformed_expr
        (fun g => Mul_unevaluated (Integer (-1)) (transformed_expr g))) ;;
   when (apply_vshift ts)
     (assign_transformed_expr
        (fun g => Add_unevaluated (transformed_expr g) (sympify_num (k ts)))))%stmt.

(** The store when line 59 is reached.  Only [base_expr] is bound; the names
    assigned later stand for the base expression until they are assigned,
    and are never read before that (see [build_reads_base_only]). *)
Definition after_parse (base : Expr) : Globals :=
  {| base_expr := base; input_expr := base; transformed_expr := base;
     challenge_input := base; challenge_expr := base |}.

(** The Transformation Composer: the expression the fragment leaves in
    [transformed_expr]. *)
Definition Composer (base : Expr) (ts : TransformationSet) : Expr :=
  transformed_expr (build_transformed_expression ts (after_parse base)).

(** [st.latex(r"y = " + sp.latex(transformed_expr))] (line 78); the
    printer is SymPy's. *)
Definition final_function_display (latex : Expr -> string) (g : Globals) : string :=
  ("y = " ++ latex (transformed_expr g))%string.

(** ** NumPy values *)

(** A [float64]. *)
Definition float : Type := spec_float.

Definition prec : Z := 53.
Definition emax : Z := 1024.

(** The binary64 nearest to [m * 2^e]. *)
Definition b64 (m e : Z) : float := binary_normalize prec emax m e false.

Definition float_add : float -> float -> float := SFadd prec emax.
Definition float_sub : float -> float -> float := SFsub prec emax.
Definition float_mul : float -> float -> float := SFmul prec emax.
Definition float_le : float -> float -> bool := SFleb.
Definition float_ge (v w : float) : bool := float_le w v.
Definition float_ne (v w : float) : bool := negb (SFeqb v w).

(** [np.isfinite] and [np.isnan]. *)
Definition isfinite (v : float) : bool :=
  match v with
  | S754_zero _ | S754_finite _ _ _ => true
  | S754_infinity _ | S754_nan => false
  end.

Definition isnan (v : float) : bool :=
  match v with
  | S754_nan => true
  | _ => false
  end.

(** The literals of lines 110-113.  [0.1] is the double
    [0x3FB999999999999A]. *)
Definition lit_0_1 : float := b64 7205759403792794 (-56).
Definition lit_1 : float := b64 1 0.
Definition lit_20 : float := b64 20 0.
Definition lit_minus_20 : float := b64 (-20) 0.

(** What a lambdified function returns at one grid point: a real or a
    complex number. *)
Inductive npvalue : Type :=
| float64 (v : float)
| complex128 (re im : float).

(** [np.real] on one entry. *)
Definition np_real (v : npvalue) : float :=
  match v with
  | float64 r => r
  | complex128 re _ => re
  end.

(** What a lambdified function returns on the grid: an array with one entry
    per point, or a single number (a 0-d result) when the expression does
    not use its argument. *)
Inductive ndresult : Type :=
| nd_array (ys : list npvalue)
| nd_scalar (y : npvalue).

(** A sampled curve, after [np.real]. *)
Inductive sampled : Type :=
| np_array (ys : list float)
| np_scalar (y : float).

(** [np.real] on what the function returned. *)
Definition np_real_result (r : ndresult) : sampled :=
  match r with
  | nd_array ys => np_array (map np_real ys)
  | nd_scalar y => np_scalar (np_real y)
  end.

(** [np.minimum] and [np.maximum] on two entries, and the reductions
    [np.min] and [np.max] of a non-empty array given by its first entry and
    the rest. *)
Definition np_minimum (v w : float) : float :=
  if float_le v w || isnan v then v else w.

Definition np_maximum (v w : float) : float :=
  if float_ge v w || isnan v then v else w.

Definition np_min (first : float) (rest : list float) : float :=
  fold_left np_minimum rest first.

Definition np_max (first : float) (rest : list float) : float :=
  fold_left np_maximum rest first.

(** ** Auto y-limits using both curves (lines 104-113) *)

Definition finite_y (y_base y_trans : list float) : list float :=
  let combined_y := y_base ++ y_trans in
  filter isfinite combined_y.

Definition padding (ymin ymax : float) : float :=
  if float_ne ymax ymin then float_mul (float_sub ymax ymin) lit_0_1 else lit_1.

(** The pair handed to [ax.set_ylim]. *)
Definition ylim (y_base y_trans : list float) : float * float :=
  match finite_y y_base y_trans with
  | first :: rest =>
      let ymin := np_min first rest in
      let ymax := np_max first rest in
      (float_sub ymin (padding ymin ymax), float_add ymax (padding ymin ymax))
  | [] => (lit_minus_20, lit_20)
  end.

(** ** The challenge (lines 120-150) *)

(** The keys the button writes into [st.session_state]. *)
Record ChallengeParameters : Type := {
  true_h : pynum;
  true_k : pynum;
  true_a : pynum;
  true_b : pynum;
  reflect_x : bool;
  reflect_y : bool
}.

(** [st.session_state]: [None] while [challenge_generated] is [False]. *)
Definition session_state : Type := option ChallengeParameters.

(** [random.choice(seq)], the random index given. *)
Definition choice {A : Type} (seq : list A) (fallback : A) (r : nat) : A :=
  nth (r mod List.length seq) seq fallback.

(** The six random indices of one click. *)
Record Draw : Type := {
  r_h : nat; r_k : nat; r_a : nat; r_b : nat; r_x : nat; r_y : nat
}.

Definition generate_challenge (r : Draw) : ChallengeParameters :=
  {| true_h := choice [PyInt 0; PyInt 2; PyInt (-3)] (PyInt 0) (r_h r);
     true_k := choice [PyInt 0; PyInt 3; PyInt (-2)] (PyInt 0) (r_k r);
     true_a := choice [PyInt 1; PyInt 2] (PyInt 1) (r_a r);
     true_b := choice [PyInt 1; PyFloat (1 # 2)] (PyInt 1) (r_b r);
     reflect_x := choice [true; false] true (r_x r);
     reflect_y := choice [true; false] true (r_y r) |}.

(** [if st.button(...)]: a click replaces the record, no click keeps it. *)
Definition button (clicked : option Draw) (ss : session_state) : session_state :=
  match clicked with
  | Some r => Some (generate_challenge r)
  | None => ss
  end.

Definition build_challenge (p : ChallengeParameters) : stmt :=
  (assign_challenge_input (fun _ => x) ;;
   when (py_ne (true_h p) (PyInt 0))
     (assign_challenge_input (fun g => expr_sub (challenge_input g) (true_h p))) ;;
   when (py_ne (true_b p) (PyInt 1))
     (assign_challenge_input (fun g => expr_rmul (true_b p) (challenge_input g))) ;;
   when (reflect_y p)
     (assign_challenge_input (fun g => expr_neg (challenge_input g))) ;;
   assign_challenge_expr (fun g => subs "x" (challenge_input g) (base_expr g)) ;;
   when (py_ne (true_a p) (PyInt 1))
     (assign_challenge_expr
        (fun g => Mul_unevaluated (sympify_num (true_a p)) (challenge_expr g))) ;;
   when (reflect_x p)
     (assign_challenge_expr
        (fun g => Mul_unevaluated (Integer (-1)) (challenge_expr g))) ;;
   when (py_ne (true_k p) (PyInt 0))
     (assign_challenge_expr
        (fun g => Add_unevaluated (challenge_expr g) (sympify_num (true_k p)))))%stmt.

(** [if st.session_state.challenge_generated: ...] *)
Definition challenge_section (ss : session_state) : stmt :=
  match ss with
  | Some p => build_challenge p
  | None => fun g => g
  end.

(** The mystery expression of a parameter record over a base expression. *)
Definition mystery (base : Expr) (p : ChallengeParameters) : Expr :=
  challenge_expr (build_challenge p (after_parse base)).

(** The transformation set that enables all six kinds with the drawn
    values: a reflection is "enabled" with its drawn boolean. *)
Definition all_enabled (p : ChallengeParameters) : TransformationSet :=
  {| apply_hshift := true;    h := true_h p;
     apply_hstretch := true;  b := true_b p;
     apply_reflect_y := reflect_y p;
     apply_vshift := true;    k := true_k p;
     apply_vstretch := true;  a := true_a p;
     apply_reflect_x := reflect_x p |}.

(** The transformation set the challenge really builds from: a shift or a
    stretch is enabled when its drawn value is not the identity value. *)
Definition enabled_when_not_identity (p : ChallengeParameters) : TransformationSet :=
  {| apply_hshift := py_ne (true_h p) (PyInt 0);    h := true_h p;
     apply_hstretch := py_ne (true_b p) (PyInt 1);  b := true_b p;
     apply_reflect_y := reflect_y p;
     apply_vshift := py_ne (true_k p) (PyInt 0);    k := true_k p;
     apply_vstretch := py_ne (true_a p) (PyInt 1);  a := true_a p;
     apply_reflect_x := reflect_x p |}.

(** ** The page (lines 28-150): what one run shows *)

(** What a run puts on the page.  [uncaught_exception] is the box Streamlit
    shows when the script raises outside its two [try] blocks; the run ends
    there. *)
Inductive element : Type :=
| st_error (message : string)
| st_latex (body : string)
| st_pyplot (y_base y_trans : list float) (limits : float * float)
| st_info (body : string)
| uncaught_exception (message : string).

Section Page.
(** The library entry points whose code is not the script's:
    [sp.sympify] (an expression, or the message of the exception),
    [sp.latex], and [sp.lambdify] applied to the grid (what the generated
    function returns, or the message of the exception). *)
Variable sympify : string -> Expr + string.
Variable latex : Expr -> string.
Variable lambdify : Expr -> list float -> ndresult + string.

(** [x_vals = np.linspace(-15, 15, 1000)] *)
Variable x_vals : list float.

(** What the libraries may raise where the script has no [try]: SymPy
    while the expression is composed (lines 59-74 and 133-147), [sp.latex]
    on an expression (lines 78, 94, 95 and 149), Matplotlib while the
    figure is drawn, its limits set and the chart rendered (lines 93-115).
    [None] is a normal return. *)
Variable sympy_raises : Expr -> TransformationSet -> option string.
Variable latex_raises : Expr -> option string.
Variable matplotlib_raises :
  list float -> list float -> list float -> float * float -> option string.

(** [np.real(f(x_vals))] *)
Definition sample (e : Expr) : sampled + string :=
  match lambdify e x_vals with
  | inl r => inl (np_real_result r)
  | inr message => inr message
  end.

(** [ax.plot(x_vals, y)] takes as many ordinates as there are abscissas,
    and [np.concatenate] takes no 0-d array: a curve that is not an array of
    the length of the grid makes the script raise. *)
Definition plottable (y : sampled) : option (list float) :=
  match y with
  | np_array ys =>
      if Nat.eqb (List.length ys) (List.length x_vals) then Some ys else None
  | np_scalar _ => None
  end.

(** Lines 93-115: the chart, or the message of the exception. *)
Definition figure (g : Globals) (y_base y_trans : sampled) : element + string :=
  match latex_raises (base_expr g) with
  | Some message => inr message
  | None =>
      match plottable y_base, plottable y_trans with
      | Some yb, Some yt =>
          match matplotlib_raises x_vals yb yt (ylim yb yt) with
          | Some message => inr message
          | None => inl (st_pyplot yb yt (ylim yb yt))
          end
      | _, _ => inr "x and y must have same first dimension"%string
      end
  end.

(** Lines 149-150, when a challenge is held. *)
Definition challenge_display (ss : session_state) (g : Globals) : list element :=
  match ss with
  | Some _ =>
      [st_latex ("\text{Transformed Function: } y = " ++ latex (challenge_expr g))%string;
       st_info "Can you guess the values of h, k, a, b and whether it was reflected?"]
  | None => []
  end.

(** Lines 117-150 over the store the composer leaves: the button, then the
    challenge.  The button has written the session state when the
    challenge is built. *)
Definition challenge_part (clicked : option Draw) (ss : session_state) (g : Globals) :
  list element * session_state :=
  let ss' := button clicked ss in
  (match ss' with
   | Some p =>
       match sympy_raises (base_expr g) (enabled_when_not_identity p) with
       | Some message => [uncaught_exception message]
       | None =>
           match latex_raises (challenge_expr (challenge_section ss' g)) with
           | Some message => [uncaught_exception message]
           | None => challenge_display ss' (challenge_section ss' g)
           end
       end
   | None => []
   end, ss').

(** Lines 76-150 over the store the composer leaves.  [st.stop()] and an
    uncaught exception both end the run: what comes after is not shown, and
    the session state is the one the run started with unless the button
    was reached. *)
Definition display_and_plot (clicked : option Draw) (ss : session_state) (g : Globals) :
  list element * session_state :=
  match latex_raises (transformed_expr g) with
  | Some message => ([uncaught_exception message], ss)
  | None =>
      match sample (base_expr g), sample (transformed_expr g) with
      | inl y_base, inl y_trans =>
          match figure g y_base y_trans with
          | inl chart =>
              (st_latex (final_function_display latex g)
               :: chart
               :: fst (challenge_part clicked ss g),
               snd (challenge_part clicked ss g))
          | inr message =>
              ([st_latex (final_function_display latex g);
                uncaught_exception message], ss)
          end
      | inr message, _ =>
          ([st_latex (final_function_display latex g);
            st_error ("Error evaluating function: " ++ message)%string], ss)
      | _, inr message =>
          ([st_latex (final_function_display latex g);
            st_error ("Error evaluating function: " ++ message)%string], ss)
      end
  end.

(** One run of the script: the elements shown, in order, and the session
    state it leaves. *)
Definition page (user_input : string) (w : Widgets) (clicked : option Draw)
  (ss : session_state) : list element * session_state :=
  match sympify user_input with
  | inr message => ([st_error ("Invalid function: " ++ message)%string], ss)
  | inl base =>
      match sympy_raises base (read_controls w) with
      | Some message => ([uncaught_exception message], ss)
      | None =>
          display_and_plot clicked ss
            (build_transformed_expression (read_controls w) (after_parse base))
      end
  end.
End Page.

(** ** The algorithm of the composer, step by step

    The nine steps of the specification (section 4.2) written as two pure
    functions, one for the substitution target (steps 1-4) and one for the
    output of the base function (steps 6-8), and their values over the
    reals.  [build_transformed_expression], which is the script, is compared
    with them below. *)

Definition horizontal_steps (ts : TransformationSet) (t : Expr) : Expr :=
  let t := if apply_hshift ts then expr_sub t (h ts) else t in
  let t := if apply_hstretch ts then expr_rmul (b ts) t else t in
  if apply_reflect_y ts then expr_neg t else t.

Definition vertical_steps (ts : TransformationSet) (g : Expr) : Expr :=
  let g := if apply_vstretch ts then Mul_unevaluated (sympify_num (a ts)) g else g in
  let g := if apply_reflect_x ts then Mul_unevaluated (Integer (-1)) g else g in
  if apply_vshift ts then Add_unevaluated g (sympify_num (k ts)) else g.

(** The value of a Python number. *)
Definition py_R (v : pynum) : R := Number_value (sympify_num v).

Definition horizontal_value (ts : TransformationSet) (v : R) : R :=
  let t := if apply_hshift ts then (v - py_R (h ts))%R else v in
  let t := if apply_hstretch ts then (py_R (b ts) * t)%R else t in
  if apply_reflect_y ts then (- t)%R else t.

Definition vertical_value (ts : TransformationSet) (y : R) : R :=
  let y := if apply_vstretch ts then (py_R (a ts) * y)%R else y in
  let y := if apply_reflect_x ts then (-1 * y)%R else y in
  if apply_vshift ts then (y + py_R (k ts))%R else y.

(** Record updates of one flag or one value of a transformation set. *)
Definition with_vstretch (flag : bool) (value : pynum) (ts : TransformationSet) :
  TransformationSet :=
  {| apply_hshift := apply_hshift ts; h := h ts;
     apply_hstretch := apply_hstretch ts; b := b ts;
     apply_reflect_y := apply_reflect_y ts;
     apply_vshift := apply_vshift ts; k := k ts;
     apply_vstretch := flag; a := value;
     apply_reflect_x := apply_reflect_x ts |}.

Definition with_hstretch (flag : bool) (value : pynum) (ts : TransformationSet) :
  TransformationSet :=
  {| apply_hshift := apply_hshift ts; h := h ts;
     apply_hstretch := flag; b := value;
     apply_reflect_y := apply_reflect_y ts;
     apply_vshift := apply_vshift ts; k := k ts;
     apply_vstretch := apply_vstretch ts; a := a ts;
     apply_reflect_x := apply_reflect_x ts |}.

(** No flag is set. *)
Definition all_disabled (ts : TransformationSet) : bool :=
  negb (apply_hshift ts || apply_hstretch ts || apply_reflect_y ts
        || apply_vshift ts || apply_vstretch ts || apply_reflect_x ts).

(** ** What the range is measured against *)

(** [m] is an entry of [l] below (above) every entry of [l], in the order
    of [float64]. *)
Definition is_minimum (m : float) (l : list float) : Prop :=
  In m l /\ forall v, In v l -> float_le m v = true.

Definition is_maximum (m : float) (l : list float) : Prop :=
  In m l /\ forall v, In v l -> float_le v m = true.

(** The samples of the examples. *)
Definition nan : float := S754_nan.
Definition inf : float := S754_infinity false.

(** ** Settings of the page used in the examples *)

(** Every box unticked; the sliders rest at their defaults. *)
Definition unticked : Widgets :=
  {| checkbox_hshift := false;   slider_h := 0;
     checkbox_hstretch := false; slider_b := 1;
     checkbox_reflect_y := false;
     checkbox_vshift := false;   slider_k := 0;
     checkbox_vstretch := false; slider_a := 1;
     checkbox_reflect_x := false |}.

(** Horizontal shift [h = 1] and horizontal stretch [b = 2]. *)
Definition shift_1_stretch_2 : Widgets :=
  {| checkbox_hshift := true;    slider_h := 1;
     checkbox_hstretch := true;  slider_b := 2;
     checkbox_reflect_y := false;
     checkbox_vshift := false;   slider_k := 0;
     checkbox_vstretch := false; slider_a := 1;
     checkbox_reflect_x := false |}.

(** Vertical stretch [a = 2], reflection over the x-axis, vertical shift
    [k = 3]. *)
Definition stretch_2_reflect_shift_3 : Widgets :=
  {| checkbox_hshift := false;   slider_h := 0;
     checkbox_hstretch := false; slider_b := 1;
     checkbox_reflect_y := false;
     checkbox_vshift := true;    slider_k := 3;
     checkbox_vstretch := true;  slider_a := 2;
     checkbox_reflect_x := true |}.

(** Only the vertical stretch box ticked, its slider at [1.0]. *)
Definition vstretch_at_1 : Widgets :=
  {| checkbox_hshift := false;   slider_h := 0;
     checkbox_hstretch := false; slider_b := 1;
     checkbox_reflect_y := false;
     checkbox_vshift := false;   slider_k := 0;
     checkbox_vstretch := true;  slider_a := 1;
     checkbox_reflect_x := false |}.

(** [x**2] *)
Definition x_squared : Expr := Pow x (Num (Integer 2)).

(** The draw that picks every identity value: [h = 0], [k = 0], [a = 1],
    [b = 1], no reflection. *)
Definition identity_draw : Draw :=
  {| r_h := 0; r_k := 0; r_a := 0; r_b := 0; r_x := 1; r_y := 1 |}.

(** Stand-ins for the library entry points, for running the page. *)
Definition zero_fn : string -> list R -> R := fun _ _ => 0%R.
Definition zero_env : string -> R := fun _ => 0%R.
Definition print_nothing : Expr -> string := fun _ => EmptyString.

(** A printer that shows the operators of an expression and its symbols,
    with [n] for every number. *)
Fixpoint print_shape (e : Expr) : string :=
  match e with
  | Num _ => "n"
  | Symbol s => s
  | Add args => "Add(" ++ String.concat "," (map print_shape args) ++ ")"
  | Mul args => "Mul(" ++ String.concat "," (map print_shape args) ++ ")"
  | Pow base ex => "Pow(" ++ print_shape base ++ "," ++ print_shape ex ++ ")"
  | Function f args => f ++ "(" ++ String.concat "," (map print_shape args) ++ ")"
  end%string.

(** The draw that picks [h = 2] and [a = 2], the identity values of [k] and
    [b], and no reflection. *)
Definition draw_h_2_a_2 : Draw :=
  {| r_h := 1; r_k := 0; r_a := 1; r_b := 0; r_x := 1; r_y := 1 |}.

(** ** The symbols of an expression, the sign of a reflection, the two halves
    of a transformation set *)

(** [e.free_symbols], listed in order of occurrence, with repeats. *)
Fixpoint symbols (e : Expr) : list string :=
  match e with
  | Num _ => []
  | Symbol s => [s]
  | Add args => flat_map symbols args
  | Mul args => flat_map symbols args
  | Pow b e' => symbols b ++ symbols e'
  | Function _ args => flat_map symbols args
  end.

(** The factor a reflection contributes to a value. *)
Definition reflect_sign (flag : bool) : R := if flag then (-1)%R else 1%R.

(** A transformation set with its vertical boxes unticked, and one with its
    horizontal boxes unticked. *)
Definition horizontal_only (ts : TransformationSet) : TransformationSet :=
  {| apply_hshift := apply_hshift ts; h := h ts;
     apply_hstretch := apply_hstretch ts; b := b ts;
     apply_reflect_y := apply_reflect_y ts;
     apply_vshift := false; k := k ts;
     apply_vstretch := false; a := a ts;
     apply_reflect_x := false |}.

Definition vertical_only (ts : TransformationSet) : TransformationSet :=
  {| apply_hshift := false; h := h ts;
     apply_hstretch := false; b := b ts;
     apply_reflect_y := false;
     apply_vshift := apply_vshift ts; k := k ts;
     apply_vstretch := apply_vstretch ts; a := a ts;
     apply_reflect_x := apply_reflect_x ts |}.

(** ** The sampling grid (line 82) *)

Definition float_div : float -> float -> float := SFdiv prec emax.

(** [np.linspace(start, stop, num)] with its default [endpoint=True]:
    [arange(0, num) * step + start] with [step = (stop - start) / (num - 1)],
    the last entry then set to [stop]; NumPy divides before it multiplies
    when the step underflows to zero, and multiplies by [stop - start] when
    [num] is 1. *)
Definition linspace (start stop : float) (num : nat) : list float :=
  let div := (num - 1)%nat in
  let delta := float_sub stop start in
  let y := map (fun i => b64 (Z.of_nat i) 0) (List.seq 0 num) in
  let y :=
    if (0 <? div)%nat then
      let step := float_div delta (b64 (Z.of_nat div) 0) in
      if SFeqb step (b64 0 0)
      then map (fun v => float_mul (float_div v (b64 (Z.of_nat div) 0)) delta) y
      else map (fun v => float_mul v step) y
    else map (fun v => float_mul v delta) y in
  let y := map (fun v => float_add v start) y in
  if (1 <? num)%nat then removelast y ++ [stop] else y.

(** [x_vals = np.linspace(-15, 15, 1000)] *)
Definition x_vals : list float := linspace (b64 (-15) 0) (b64 15 0) 1000.

(** Each entry is below the next one, in the order of [float64]. *)
Fixpoint strictly_increasing (l : list float) : bool :=
  match l with
  | v :: (w :: _) as rest => SFltb v w && strictly_increasing rest
  | _ => true
  end.

(** ** What [lambdify] generates, on a [float64] array

    [sp.lambdify(x, e, modules=["numpy"])] prints [e] as Python source over
    NumPy and compiles it.  Applied to a [float64] array the arithmetic is
    elementwise IEEE arithmetic: it signals a division by zero or an
    invalid operation by a warning and an infinity or a NaN, never by an
    exception.  What can raise is a name the generated source does not
    know: a symbol other than [x], or a function NumPy does not have.  An
    expression in which [x] does not occur gives one number, not an array.

    Sums and products are taken in the order of the arguments (with two
    arguments, the only case used below, the order does not change the
    result); a power with exponent [-1] is printed as [1/b], a power with
    exponent [2] is computed as the square; every other power is NumPy's
    [power], and the named functions are NumPy's, both parameters here. *)

(** The [float64] a number of the expression is read as. *)
Definition Number_float (n : Number) : float :=
  match n with
  | Integer z => b64 z 0
  | Rational q => float_div (b64 (Qnum q) 0) (b64 (Zpos (Qden q)) 0)
  | Float q => float_div (b64 (Qnum q) 0) (b64 (Zpos (Qden q)) 0)
  end.

Definition name_error (s : string) : string :=
  ("name '" ++ s ++ "' is not defined")%string.

(** The values in order, or the first exception. *)
Fixpoint all_values (l : list (float + string)) : list float + string :=
  match l with
  | [] => inl []
  | inl v :: l' =>
      match all_values l' with
      | inl vs => inl (v :: vs)
      | inr message => inr message
      end
  | inr message :: _ => inr message
  end.

Definition np_sum (vs : list float) : float :=
  match vs with
  | [] => b64 0 0
  | v :: rest => fold_left float_add rest v
  end.

Definition np_prod (vs : list float) : float :=
  match vs with
  | [] => lit_1
  | v :: rest => fold_left float_mul rest v
  end.

Definition is_minus_one (e : Expr) : bool :=
  match e with
  | Num (Integer z) => Z.eqb z (-1)
  | _ => false
  end.

Definition is_two (e : Expr) : bool :=
  match e with
  | Num (Integer z) => Z.eqb z 2
  | _ => false
  end.

Section NumPy.
Variable np_function : string -> option (list float -> float).
Variable np_power : float -> float -> float.

(** The generated source at one entry [v] of the array. *)
Fixpoint np_eval (e : Expr) (v : float) : float + string :=
  match e with
  | Num n => inl (Number_float n)
  | Symbol s => if String.eqb s "x" then inl v else inr (name_error s)
  | Add args =>
      match all_values (map (fun arg => np_eval arg v) args) with
      | inl vs => inl (np_sum vs)
      | inr message => inr message
      end
  | Mul args =>
      match all_values (map (fun arg => np_eval arg v) args) with
      | inl vs => inl (np_prod vs)
      | inr message => inr message
      end
  | Pow b e' =>
      match np_eval b v, np_eval e' v with
      | inl vb, inl ve =>
          inl (if is_minus_one e' then float_div lit_1 vb
               else if is_two e' then float_mul vb vb
               else np_power vb ve)
      | inr message, _ => inr message
      | _, inr message => inr message
      end
  | Function f args =>
      match np_function f with
      | None => inr (name_error f)
      | Some g =>
          match all_values (map (fun arg => np_eval arg v) args) with
          | inl vs => inl (g vs)
          | inr message => inr message
          end
      end
  end.

(** The generated function on the array [xs]. *)
Definition numpy_lambdify (e : Expr) (xs : list float) : ndresult + string :=
  match np_eval e (b64 0 0) with
  | inr message => inr message
  | inl y0 =>
      if existsb (String.eqb "x") (symbols e)
      then inl (nd_array
                  (map (fun v => match np_eval e v with
                                 | inl y => float64 y
                                 | inr _ => float64 nan
                                 end) xs))
      else inl (nd_scalar (float64 y0))
  end.
End NumPy.



(** Stand-ins for NumPy's named functions and general power, and for the
    libraries that raise nothing. *)
Definition no_function : string -> option (list float -> float) := fun _ => None.
Definition nan_power : float -> float -> float := fun _ _ => nan.
Definition sympy_returns : Expr -> TransformationSet -> option string := fun _ _ => None.
Definition latex_returns : Expr -> option string := fun _ => None.
Definition matplotlib_returns :
  list float -> list float -> list float -> float * float -> option string :=
  fun _ _ _ _ => None.
Definition parse_as_x_squared : string -> Expr + string := fun _ => inl x_squared.

(** ** Expressions as Python objects

    To the script an expression is a reference to a SymPy object, and an
    object holds references to its arguments.  The objects created so far
    are a list, a reference is a position in it.  SymPy's operations build
    new objects or return one that exists; none of them writes into an
    object.  The operations of the script are written over this heap to
    state what that means for [base_expr]: two variables can hold the same
    object, and an object can be an argument of several others. *)

Definition addr : Type := nat.

Inductive object : Type :=
| ONum (n : Number)
| OSymbol (name : string)
| OAdd (args : list addr)
| OMul (args : list addr)
| OPow (base exponent : addr)
| OFunction (name : string) (args : list addr).

Definition heap : Type := list object.

(** A new object: the heap with it, and its reference. *)
Definition alloc (o : object) (H : heap) : heap * addr := (H ++ [o], List.length H).

(** Every entry, or nothing. *)
Fixpoint all_some {A : Type} (l : list (option A)) : option (list A) :=
  match l with
  | [] => Some []
  | Some v :: l' => option_map (cons v) (all_some l')
  | None :: _ => None
  end.

(** The expression an object stands for, read through its arguments down
    to [fuel] levels. *)
Fixpoint read (fuel : nat) (H : heap) (p : addr) : option Expr :=
  match fuel with
  | O => None
  | S fuel' =>
      match nth_error H p with
      | None => None
      | Some (ONum n) => Some (Num n)
      | Some (OSymbol s) => Some (Symbol s)
      | Some (OAdd args) => option_map Add (all_some (map (read fuel' H) args))
      | Some (OMul args) => option_map Mul (all_some (map (read fuel' H) args))
      | Some (OPow b e) =>
          match read fuel' H b, read fuel' H e with
          | Some b', Some e' => Some (Pow b' e')
          | _, _ => None
          end
      | Some (OFunction f args) =>
          option_map (Function f) (all_some (map (read fuel' H) args))
      end
  end.

(** [p - h], [b * p], [-p], [sp.Mul(c, p, evaluate=False)] and
    [sp.Add(p, c, evaluate=False)] on objects: the number and the node are
    new objects, the operand is referred to. *)
Definition obj_sub (p : addr) (h : pynum) (H : heap) : heap * addr :=
  let '(H1, q) := alloc (ONum (Number_neg (sympify_num h))) H in
  alloc (OAdd [p; q]) H1.

Definition obj_Mul (c : Number) (p : addr) (H : heap) : heap * addr :=
  let '(H1, q) := alloc (ONum c) H in
  alloc (OMul [q; p]) H1.

Definition obj_rmul (b : pynum) (p : addr) (H : heap) : heap * addr :=
  obj_Mul (sympify_num b) p H.

Definition obj_neg (p : addr) (H : heap) : heap * addr :=
  obj_Mul (Integer (-1)) p H.

Definition obj_Add (p : addr) (c : Number) (H : heap) : heap * addr :=
  let '(H1, q) := alloc (ONum c) H in
  alloc (OAdd [p; q]) H1.

(** The arguments of a node walked from left to right, each in the heap the
    one before left. *)
Fixpoint walk_list (walk : addr -> heap -> option (heap * addr)) (args : list addr)
  (H : heap) : option (heap * list addr) :=
  match args with
  | [] => Some (H, [])
  | arg :: rest =>
      match walk arg H with
      | None => None
      | Some (H1, arg') =>
          match walk_list walk rest H1 with
          | None => None
          | Some (H2, rest') => Some (H2, arg' :: rest')
          end
      end
  end.

(** A node after its arguments were walked: itself when they all came back
    as they were, a new object over the new arguments otherwise. *)
Definition rebuild (walked : option (heap * list addr)) (node : list addr -> object)
  (args : list addr) (p : addr) : option (heap * addr) :=
  match walked with
  | None => None
  | Some (H', args') =>
      Some (if list_eq_dec Nat.eq_dec args' args then (H', p)
            else alloc (node args') H')
  end.

(** The walk of [subs]: a symbol named [old] gives the object [new], every
    other leaf itself, a node what [rebuild] makes of it. *)
Fixpoint obj_subs_walk (fuel : nat) (old : string) (new : addr) (p : addr) (H : heap) :
  option (heap * addr) :=
  match fuel with
  | O => None
  | S fuel' =>
      match nth_error H p with
      | None => None
      | Some (ONum _) => Some (H, p)
      | Some (OSymbol s) => Some (H, if String.eqb s old then new else p)
      | Some (OAdd args) =>
          rebuild (walk_list (obj_subs_walk fuel' old new) args H) OAdd args p
      | Some (OMul args) =>
          rebuild (walk_list (obj_subs_walk fuel' old new) args H) OMul args p
      | Some (OPow b e) =>
          rebuild (walk_list (obj_subs_walk fuel' old new) [b; e] H)
            (fun l => OPow (nth 0%nat l b) (nth 1%nat l e)) [b; e] p
      | Some (OFunction f args) =>
          rebuild (walk_list (obj_subs_walk fuel' old new) args H) (OFunction f) args p
      end
  end.

(** [p.subs(Symbol(old), new)]: a pair that replaces the symbol by itself
    is skipped and the receiver returned. *)
Definition obj_subs (fuel : nat) (old : string) (new : addr) (p : addr) (H : heap) :
  option (heap * addr) :=
  match nth_error H new with
  | Some (OSymbol s) =>
      if String.eqb s old then Some (H, p) else obj_subs_walk fuel old new p H
  | _ => obj_subs_walk fuel old new p H
  end.

(** The variables of lines 59-74 as references. *)
Record Names : Type := {
  name_x : addr;
  name_base_expr : addr;
  name_input_expr : addr;
  name_transformed_expr : addr
}.

(** [if c: p = op(p)] on a heap and a reference. *)
Definition obj_when (c : bool) (op : addr -> heap -> heap * addr) (st : heap * addr) :
  heap * addr :=
  if c then op (snd st) (fst st) else st.

(** Lines 59-65 and 69-74 on objects. *)
Definition obj_horizontal (ts : TransformationSet) (st : heap * addr) : heap * addr :=
  obj_when (apply_reflect_y ts) obj_neg
    (obj_when (apply_hstretch ts) (obj_rmul (b ts))
       (obj_when (apply_hshift ts) (fun p => obj_sub p (h ts)) st)).

Definition obj_vertical (ts : TransformationSet) (st : heap * addr) : heap * addr :=
  obj_when (apply_vshift ts) (fun p => obj_Add p (sympify_num (k ts)))
    (obj_when (apply_reflect_x ts) (obj_Mul (Integer (-1)))
       (obj_when (apply_vstretch ts) (obj_Mul (sympify_num (a ts))) st)).

(** Lines 59-74 on objects: the heap and the variables afterwards, from the
    heap and the objects [x] and [base_expr] before; [None] when [fuel] does
    not reach the leaves of the base expression. *)
Definition obj_composer (fuel : nat) (ts : TransformationSet) (x_obj base_obj : addr)
  (H : heap) : option (heap * Names) :=
  match obj_subs fuel "x" (snd (obj_horizontal ts (H, x_obj))) base_obj
          (fst (obj_horizontal ts (H, x_obj))) with
  | None => None
  | Some st =>
      Some (fst (obj_vertical ts st),
            {| name_x := x_obj;
               name_base_expr := base_obj;
               name_input_expr := snd (obj_horizontal ts (H, x_obj));
               name_transformed_expr := snd (obj_vertical ts st) |})
  end.

(** [H'] holds every object of [H], unchanged and at the same place. *)
Definition extends (H H' : heap) : Prop := exists more, H' = H ++ more.

(** What one walk has to do for [subs] to be right: from a heap in which
    [new] stands for [t], and an object that stands for [e], it returns a
    heap that holds every object of the first and an object that stands for
    [e] with [t] in place of the symbol [old]. *)
Definition walk_spec (old : string) (new : addr) (t : Expr) (ft fuel : nat)
  (walk : addr -> heap -> option (heap * addr)) : Prop :=
  forall (H : heap) (p : addr) (e : Expr),
    read ft H new = Some t ->
    read fuel H p = Some e ->
    exists H' p',
      walk p H = Some (H', p') /\
      extends H H' /\
      read (fuel + ft) H' p' = Some (subs old t e).

(** A heap holding [x] and [x**2], for the examples. *)
Definition heap_x_squared : heap := [OSymbol "x"; ONum (Integer 2); OPow 0%nat 1%nat].

(** ** Reading a page *)

Definition is_uncaught (e : element) : bool :=
  match e with
  | uncaught_exception _ => true
  | _ => false
  end.

Definition is_error (e : element) : bool :=
  match e with
  | st_error _ => true
  | _ => false
  end.

Definition is_pyplot (e : element) : bool :=
  match e with
  | st_pyplot _ _ _ => true
  | _ => false
  end.

(** * Properties *)

(** ** Substitution *)

Lemma subs_same_symbol (s : string) (e : Expr) : subs s (Symbol s) e = e.
Proof.
  induction e as [n | s' | args IH | args IH | base IHb ex IHe | f args IH]
    using Expr_nested_ind; simpl.
  - reflexivity.
  - destruct (String.eqb_spec s' s) as [-> | _]; reflexivity.
  - f_equal. induction IH as [| a0 l Ha _ IHl]; simpl; congruence.
  - f_equal. induction IH as [| a0 l Ha _ IHl]; simpl; congruence.
  - congruence.
  - f_equal. induction IH as [| a0 l Ha _ IHl]; simpl; congruence.
Qed.

Section Semantics.
Local Open Scope R_scope.
Variable fn : string -> list R -> R.

Lemma eval_ext (env1 env2 : string -> R) (e : Expr) :
  (forall s, env1 s = env2 s) -> eval fn env1 e = eval fn env2 e.
Proof.
  intros Henv.
  induction e as [n | s' | args IH | args IH | base IHb ex IHe | f args IH]
    using Expr_nested_ind; simpl.
  - reflexivity.
  - apply Henv.
  - induction IH as [| a0 l Ha _ IHl]; simpl; congruence.
  - induction IH as [| a0 l Ha _ IHl]; simpl; congruence.
  - congruence.
  - f_equal. induction IH as [| a0 l Ha _ IHl]; simpl; congruence.
Qed.

(** Substituting and then evaluating is evaluating with the symbol bound
    to the value of what was substituted. *)
Lemma eval_subs (env : string -> R) (s : string) (t e : Expr) :
  eval fn env (subs s t e) = eval fn (bind s (eval fn env t) env) e.
Proof.
  induction e as [n | s' | args IH | args IH | base IHb ex IHe | f args IH]
    using Expr_nested_ind; simpl.
  - reflexivity.
  - unfold bind. destruct (String.eqb s' s); reflexivity.
  - induction IH as [| a0 l Ha _ IHl]; simpl; congruence.
  - induction IH as [| a0 l Ha _ IHl]; simpl; congruence.
  - congruence.
  - f_equal. induction IH as [| a0 l Ha _ IHl]; simpl; congruence.
Qed.

Lemma bind_shadow (s : string) (u v : R) (env : string -> R) (s' : string) :
  bind s u (bind s v env) s' = bind s u env s'.
Proof. unfold bind. destruct (String.eqb s' s); reflexivity. Qed.

Lemma eval_at_subs (env : string -> R) (t e : Expr) (v : R) :
  eval_at fn env (subs "x" t e) v = eval_at fn env e (eval_at fn env t v).
Proof.
  unfold eval_at. rewrite eval_subs. apply eval_ext. intros s'. apply bind_shadow.
Qed.

Lemma Number_value_neg (n : Number) : Number_value (Number_neg n) = - Number_value n.
Proof. destruct n; simpl; [apply opp_IZR | apply Q2R_opp | apply Q2R_opp]. Qed.

Lemma eval_expr_sub (env : string -> R) (e : Expr) (c : pynum) :
  eval fn env (expr_sub e c) = eval fn env e - py_R c.
Proof. unfold expr_sub, py_R. simpl. rewrite Number_value_neg. lra. Qed.

Lemma eval_expr_rmul (env : string -> R) (e : Expr) (c : pynum) :
  eval fn env (expr_rmul c e) = py_R c * eval fn env e.
Proof. unfold expr_rmul, py_R. simpl. lra. Qed.

Lemma eval_expr_neg (env : string -> R) (e : Expr) :
  eval fn env (expr_neg e) = - eval fn env e.
Proof. unfold expr_neg. simpl. lra. Qed.

Lemma eval_Mul_unevaluated (env : string -> R) (c : Number) (e : Expr) :
  eval fn env (Mul_unevaluated c e) = Number_value c * eval fn env e.
Proof. unfold Mul_unevaluated. simpl. lra. Qed.

Lemma eval_Add_unevaluated (env : string -> R) (c : Number) (e : Expr) :
  eval fn env (Add_unevaluated e c) = eval fn env e + Number_value c.
Proof. unfold Add_unevaluated. simpl. lra. Qed.

Lemma eval_horizontal_steps (env : string -> R) (ts : TransformationSet) (t : Expr) :
  eval fn env (horizontal_steps ts t) = horizontal_value ts (eval fn env t).
Proof.
  unfold horizontal_steps, horizontal_value.
  destruct (apply_hshift ts), (apply_hstretch ts), (apply_reflect_y ts);
    repeat first [rewrite eval_expr_neg | rewrite eval_expr_rmul | rewrite eval_expr_sub];
    reflexivity.
Qed.

Lemma eval_vertical_steps (env : string -> R) (ts : TransformationSet) (g : Expr) :
  eval fn env (vertical_steps ts g) = vertical_value ts (eval fn env g).
Proof.
  unfold vertical_steps, vertical_value, py_R.
  destruct (apply_vstretch ts), (apply_reflect_x ts), (apply_vshift ts);
    repeat first [rewrite eval_Add_unevaluated | rewrite eval_Mul_unevaluated];
    reflexivity.
Qed.
End Semantics.

(** ** The store after the composer *)

Lemma build_transformed_expression_store (ts : TransformationSet) (g : Globals) :
  build_transformed_expression ts g =
  {| base_expr := base_expr g;
     input_expr := horizontal_steps ts x;
     transformed_expr := vertical_steps ts (subs "x" (horizontal_steps ts x) (base_expr g));
     challenge_input := challenge_input g;
     challenge_expr := challenge_expr g |}.
Proof.
  unfold build_transformed_expression, horizontal_steps, vertical_steps, seq, when.
  destruct (apply_hshift ts), (apply_hstretch ts), (apply_reflect_y ts),
    (apply_vstretch ts), (apply_reflect_x ts), (apply_vshift ts); reflexivity.
Qed.

(** Nothing but [base_expr] is read from the store the fragment starts in. *)
Lemma build_reads_base_only (ts : TransformationSet) (g g' : Globals) :
  base_expr g = base_expr g' ->
  transformed_expr (build_transformed_expression ts g) =
  transformed_expr (build_transformed_expression ts g') /\
  input_expr (build_transformed_expression ts g) =
  input_expr (build_transformed_expression ts g').
Proof.
  intros Hbase. rewrite !build_transformed_expression_store. simpl.
  rewrite Hbase. split; reflexivity.
Qed.

Lemma Composer_steps (base : Expr) (ts : TransformationSet) :
  Composer base ts = vertical_steps ts (subs "x" (horizontal_steps ts x) base).
Proof. unfold Composer. rewrite build_transformed_expression_store. reflexivity. Qed.

(** The value of the composed expression: [y = V (f (H x))], with [H] the
    horizontal and [V] the vertical steps. *)
Lemma Composer_value (fn : string -> list R -> R) (env : string -> R)
  (base : Expr) (ts : TransformationSet) (v : R) :
  eval_at fn env (Composer base ts) v =
  vertical_value ts (eval_at fn env base (horizontal_value ts v)).
Proof.
  rewrite Composer_steps. unfold eval_at at 1. rewrite eval_vertical_steps.
  fold (eval_at fn env (subs "x" (horizontal_steps ts x) base) v).
  rewrite eval_at_subs. unfold eval_at at 2. rewrite eval_horizontal_steps.
  reflexivity.
Qed.

(** ** The identity law *)

Lemma all_disabled_flags (ts : TransformationSet) :
  all_disabled ts = true ->
  apply_hshift ts = false /\ apply_hstretch ts = false /\ apply_reflect_y ts = false /\
  apply_vshift ts = false /\ apply_vstretch ts = false /\ apply_reflect_x ts = false.
Proof.
  unfold all_disabled.
  destruct (apply_hshift ts), (apply_hstretch ts), (apply_reflect_y ts),
    (apply_vshift ts), (apply_vstretch ts), (apply_reflect_x ts);
    simpl; intros H; try discriminate H; repeat split.
Qed.

(** C1. With all six enable-flags false the composer returns the base
    expression itself, whatever the parameter values are, and the line shown
    on the page is the one of the base expression: nothing is wrapped around
    it. *)
Theorem C1_all_disabled_is_identity (base : Expr) (ts : TransformationSet) :
  all_disabled ts = true ->
  Composer base ts = base /\
  forall latex : Expr -> string,
    final_function_display latex (build_transformed_expression ts (after_parse base))
    = ("y = " ++ latex base)%string.
Proof.
  intros Hoff.
  destruct (all_disabled_flags ts Hoff) as (Hh & Hb & Hry & Hk & Ha & Hrx).
  assert (Hid : Composer base ts = base).
  { rewrite Composer_steps. unfold vertical_steps, horizontal_steps.
    rewrite Hh, Hb, Hry, Hk, Ha, Hrx. apply subs_same_symbol. }
  split; [exact Hid |].
  intros latex. unfold final_function_display.
  change (transformed_expr (build_transformed_expression ts (after_parse base)))
    with (Composer base ts).
  rewrite Hid. reflexivity.
Qed.

Lemma C1_witness :
  Composer x_squared (read_controls unticked) = x_squared /\
  forall latex : Expr -> string,
    final_function_display latex
      (build_transformed_expression (read_controls unticked) (after_parse x_squared))
    = ("y = " ++ latex x_squared)%string.
Proof. apply (C1_all_disabled_is_identity x_squared (read_controls unticked)). reflexivity. Defined.

(** ** Powers with an integer exponent *)

Lemma Int_part_IZR (z : Z) : Int_part (IZR z) = z.
Proof. symmetry. apply Int_part_spec. lra. Qed.

Lemma Rpow_IZR (v : R) (z : Z) : Rpow v (IZR z) = powerRZ v z.
Proof.
  unfold Rpow. rewrite Int_part_IZR.
  destruct (Req_dec_T (IZR z) (IZR z)) as [_ | Hne]; [reflexivity | contradiction].
Qed.

Lemma eval_at_x (fn : string -> list R -> R) (env : string -> R) (v : R) :
  eval_at fn env x v = v.
Proof. reflexivity. Qed.

Lemma eval_at_x_squared (fn : string -> list R -> R) (env : string -> R) (v : R) :
  eval_at fn env x_squared v = (v * v)%R.
Proof.
  unfold eval_at, x_squared. simpl. rewrite Rpow_IZR. unfold bind. simpl. lra.
Qed.

(** ** Horizontal order *)

(** C2. With horizontal shift and horizontal stretch enabled and reflect-Y
    disabled the variable is replaced by [b * (x - h)]: the shift is applied
    to the substitution target first, the stretch second.  For the base
    [f(x) = x] with [h = 1] and [b = 2] the transformed expression is worth
    4 at [x = 3], and not 5. *)
Theorem C2_shift_before_stretch :
  (forall (base : Expr) (ts : TransformationSet),
      apply_hshift ts = true -> apply_hstretch ts = true -> apply_reflect_y ts = false ->
      input_expr (build_transformed_expression ts (after_parse base))
      = expr_rmul (b ts) (expr_sub x (h ts)) /\
      Composer base ts
      = vertical_steps ts (subs "x" (expr_rmul (b ts) (expr_sub x (h ts))) base) /\
      forall (fn : string -> list R -> R) (env : string -> R) (v : R),
        eval_at fn env (Composer base ts) v
        = vertical_value ts (eval_at fn env base (py_R (b ts) * (v - py_R (h ts))))) /\
  (forall (fn : string -> list R -> R) (env : string -> R),
      eval_at fn env (Composer x (read_controls shift_1_stretch_2)) 3 = 4%R /\
      eval_at fn env (Composer x (read_controls shift_1_stretch_2)) 3 <> 5%R).
Proof.
  split.
  - intros base ts Hh Hb Hry. repeat split.
    + rewrite build_transformed_expression_store. simpl.
      unfold horizontal_steps. rewrite Hh, Hb, Hry. reflexivity.
    + rewrite Composer_steps. unfold horizontal_steps. rewrite Hh, Hb, Hry. reflexivity.
    + intros fn env v. rewrite Composer_value. unfold horizontal_value.
      rewrite Hh, Hb, Hry. reflexivity.
  - intros fn env.
    assert (H4 : eval_at fn env (Composer x (read_controls shift_1_stretch_2)) 3 = 4%R).
    { rewrite Composer_value, eval_at_x.
      unfold vertical_value, horizontal_value, py_R, Q2R; simpl. lra. }
    split; [exact H4 | rewrite H4; lra].
Qed.

Lemma C2_witness :
  input_expr (build_transformed_expression (read_controls shift_1_stretch_2) (after_parse x))
  = expr_rmul (PyFloat 2) (expr_sub x (PyFloat 1)) /\
  eval_at zero_fn zero_env (Composer x (read_controls shift_1_stretch_2)) 3 = 4%R.
Proof.
  destruct (proj1 C2_shift_before_stretch x (read_controls shift_1_stretch_2)
              eq_refl eq_refl eq_refl) as (Htarget & _ & _).
  split.
  - exact Htarget.
  - exact (proj1 (proj2 C2_shift_before_stretch zero_fn zero_env)).
Defined.

(** ** Vertical order *)

(** C3. The vertical transformations wrap the output of the base function
    (the base expression after the substitution): the vertical stretch
    first, the reflection over the x-axis as a product with [-1] second, the
    vertical shift as a sum last, each node built from its two arguments as
    they are.  For the base [x**2] with [a = 2], the reflection and [k = 3]
    the result is worth 3 at [x = 0] and -5 at [x = 2]. *)
Theorem C3_vertical_order :
  (forall (base : Expr) (ts : TransformationSet),
      apply_vstretch ts = true -> apply_reflect_x ts = true -> apply_vshift ts = true ->
      Composer base ts
      = Add [Mul [Num (Integer (-1));
                  Mul [Num (sympify_num (a ts));
                       subs "x" (horizontal_steps ts x) base]];
             Num (sympify_num (k ts))] /\
      forall (fn : string -> list R -> R) (env : string -> R) (v : R),
        eval_at fn env (Composer base ts) v
        = (-1 * (py_R (a ts) * eval_at fn env base (horizontal_value ts v))
           + py_R (k ts))%R) /\
  (forall (base : Expr) (ts : TransformationSet),
      Composer base ts = vertical_steps ts (subs "x" (horizontal_steps ts x) base)) /\
  (forall (fn : string -> list R -> R) (env : string -> R),
      eval_at fn env (Composer x_squared (read_controls stretch_2_reflect_shift_3)) 0 = 3%R /\
      eval_at fn env (Composer x_squared (read_controls stretch_2_reflect_shift_3)) 2
      = (-5)%R).
Proof.
  split; [| split].
  - intros base ts Ha Hrx Hk. split.
    + rewrite Composer_steps. unfold vertical_steps. rewrite Ha, Hrx, Hk. reflexivity.
    + intros fn env v. rewrite Composer_value. unfold vertical_value.
      rewrite Ha, Hrx, Hk. reflexivity.
  - exact Composer_steps.
  - intros fn env. split; rewrite Composer_value, eval_at_x_squared;
      unfold vertical_value, horizontal_value, py_R, Q2R; simpl; lra.
Qed.

Lemma C3_witness :
  Composer x_squared (read_controls stretch_2_reflect_shift_3)
  = Add [Mul [Num (Integer (-1)); Mul [Num (Float 2); Pow (Symbol "x") (Num (Integer 2))]];
         Num (Float 3)].
Proof.
  exact (proj1 (proj1 C3_vertical_order x_squared (read_controls stretch_2_reflect_shift_3)
                  eq_refl eq_refl eq_refl)).
Defined.

(** ** A stretch enabled at its identity value *)

Lemma py_R_value (v : pynum) : py_R v = Q2R (py_value v).
Proof. destruct v as [n | q]; unfold py_R, Q2R; simpl; [lra | reflexivity]. Qed.

Lemma py_R_identity (v : pynum) (n : Z) :
  (py_value v == inject_Z n)%Q -> py_R v = IZR n.
Proof.
  intros Heq. rewrite py_R_value, (Qeq_eqR _ _ Heq). unfold Q2R. simpl. lra.
Qed.

Lemma py_ne_false (v : pynum) (n : Z) : py_ne v (PyInt n) = false -> py_R v = IZR n.
Proof.
  unfold py_ne. intros Hne. apply py_R_identity.
  apply Qeq_bool_eq. apply negb_false_iff in Hne. exact Hne.
Qed.

(** A product node is never its own second factor. *)
Lemma Mul_unevaluated_not_same (c : Number) (e : Expr) : Mul_unevaluated c e <> e.
Proof.
  unfold Mul_unevaluated. revert c.
  induction e as [n | s | args IH | args IH | base IHb ex IHe | f args IH]
    using Expr_nested_ind; intros c Heq; try discriminate Heq.
  injection Heq as Hargs. rewrite <- Hargs in IH.
  inversion IH as [| ? ? _ Htail]; subst. inversion Htail as [| ? ? Hself _]; subst.
  apply (Hself c). f_equal. exact Hargs.
Qed.

Lemma vertical_value_identity_stretch (ts : TransformationSet) (one : pynum) (y : R) :
  py_R one = 1%R ->
  vertical_value (with_vstretch true one ts) y = vertical_value (with_vstretch false one ts) y.
Proof.
  intros Hval. unfold vertical_value. cbn [apply_vstretch apply_reflect_x apply_vshift
    a k with_vstretch]. rewrite Hval.
  destruct (apply_reflect_x ts), (apply_vshift ts); lra.
Qed.

Lemma horizontal_value_identity_stretch (ts : TransformationSet) (one : pynum) (v : R) :
  py_R one = 1%R ->
  horizontal_value (with_hstretch true one ts) v
  = horizontal_value (with_hstretch false one ts) v.
Proof.
  intros Hval. unfold horizontal_value. cbn [apply_hshift apply_hstretch apply_reflect_y
    h b with_hstretch]. rewrite Hval.
  destruct (apply_hshift ts), (apply_reflect_y ts); lra.
Qed.

(** Against C4 as stated: the vertical stretch enabled at the slider value
    [1.0] on the base [f(x) = x] gives [1.0*x], the stretch disabled gives
    [x]. *)
Lemma C4_counterexample :
  Composer x (read_controls vstretch_at_1) = Mul [Num (Float 1); Symbol "x"] /\
  Composer x (read_controls unticked) = Symbol "x" /\
  Composer x (read_controls vstretch_at_1) <> Composer x (read_controls unticked).
Proof. repeat split. discriminate. Qed.

(** C4, as the code has it.  A stretch enabled at its identity value
    contributes the identity to the value of the result: at every point the
    expression is worth what it is worth with the stretch disabled.  It is
    not the same expression: the enabled vertical stretch is kept as the
    explicit product of the factor and what it stretches, for every base
    expression. *)
Theorem C4_identity_stretch_same_value (fn : string -> list R -> R) (env : string -> R)
  (base : Expr) (ts : TransformationSet) (one : pynum) (v : R) :
  (py_value one == 1)%Q ->
  eval_at fn env (Composer base (with_vstretch true one ts)) v
  = eval_at fn env (Composer base (with_vstretch false one ts)) v /\
  eval_at fn env (Composer base (with_hstretch true one ts)) v
  = eval_at fn env (Composer base (with_hstretch false one ts)) v /\
  Composer base (with_vstretch true one ts) <> Composer base (with_vstretch false one ts).
Proof.
  intros Hone. pose proof (py_R_identity one 1 Hone) as Hval.
  split; [| split].
  - rewrite !Composer_value.
    rewrite (vertical_value_identity_stretch ts one _ Hval). reflexivity.
  - rewrite !Composer_value.
    rewrite (horizontal_value_identity_stretch ts one v Hval). reflexivity.
  - rewrite !Composer_steps.
    change (horizontal_steps (with_vstretch true one ts) x) with (horizontal_steps ts x).
    change (horizontal_steps (with_vstretch false one ts) x) with (horizontal_steps ts x).
    pose proof (Mul_unevaluated_not_same (sympify_num one)
                  (subs "x" (horizontal_steps ts x) base)) as Hne.
    unfold vertical_steps.
    cbn [apply_vstretch apply_reflect_x apply_vshift a k with_vstretch].
    unfold Mul_unevaluated, Add_unevaluated in *.
    destruct (apply_reflect_x ts), (apply_vshift ts); congruence.
Qed.

Lemma C4_witness :
  eval_at zero_fn zero_env (Composer x_squared (with_vstretch true (PyFloat 1) (read_controls unticked))) 3
  = eval_at zero_fn zero_env (Composer x_squared (with_vstretch false (PyFloat 1) (read_controls unticked))) 3.
Proof.
  exact (proj1 (C4_identity_stretch_same_value zero_fn zero_env x_squared
                  (read_controls unticked) (PyFloat 1) 3 (Qeq_refl 1))).
Defined.

(** ** The challenge and the composer *)

Lemma build_challenge_store (p : ChallengeParameters) (g : Globals) :
  build_challenge p g =
  {| base_expr := base_expr g;
     input_expr := input_expr g;
     transformed_expr := transformed_expr g;
     challenge_input := horizontal_steps (enabled_when_not_identity p) x;
     challenge_expr :=
       vertical_steps (enabled_when_not_identity p)
         (subs "x" (horizontal_steps (enabled_when_not_identity p) x) (base_expr g)) |}.
Proof.
  unfold build_challenge, horizontal_steps, vertical_steps, seq, when.
  cbn [apply_hshift apply_hstretch apply_reflect_y apply_vshift apply_vstretch
       apply_reflect_x h b k a enabled_when_not_identity].
  destruct (py_ne (true_h p) (PyInt 0)), (py_ne (true_b p) (PyInt 1)), (reflect_y p),
    (py_ne (true_a p) (PyInt 1)), (reflect_x p), (py_ne (true_k p) (PyInt 0));
    reflexivity.
Qed.

Lemma horizontal_value_identity_skipped (p : ChallengeParameters) (v : R) :
  horizontal_value (enabled_when_not_identity p) v = horizontal_value (all_enabled p) v.
Proof.
  unfold horizontal_value.
  cbn [apply_hshift apply_hstretch apply_reflect_y h b enabled_when_not_identity all_enabled].
  destruct (py_ne (true_h p) (PyInt 0)) eqn:Hh, (py_ne (true_b p) (PyInt 1)) eqn:Hb,
    (reflect_y p);
    try rewrite (py_ne_false _ _ Hh); try rewrite (py_ne_false _ _ Hb); lra.
Qed.

Lemma vertical_value_identity_skipped (p : ChallengeParameters) (y : R) :
  vertical_value (enabled_when_not_identity p) y = vertical_value (all_enabled p) y.
Proof.
  unfold vertical_value.
  cbn [apply_vshift apply_vstretch apply_reflect_x k a enabled_when_not_identity all_enabled].
  destruct (py_ne (true_a p) (PyInt 1)) eqn:Ha, (py_ne (true_k p) (PyInt 0)) eqn:Hk,
    (reflect_x p);
    try rewrite (py_ne_false _ _ Ha); try rewrite (py_ne_false _ _ Hk); lra.
Qed.

(** Every value of a draw comes from its menu. *)
Lemma generate_challenge_menus (r : Draw) :
  In (true_h (generate_challenge r)) [PyInt 0; PyInt 2; PyInt (-3)] /\
  In (true_k (generate_challenge r)) [PyInt 0; PyInt 3; PyInt (-2)] /\
  In (true_a (generate_challenge r)) [PyInt 1; PyInt 2] /\
  In (true_b (generate_challenge r)) [PyInt 1; PyFloat (1 # 2)].
Proof.
  unfold generate_challenge, choice. cbn [true_h true_k true_a true_b List.length].
  repeat split; apply nth_In; apply Nat.mod_upper_bound; discriminate.
Qed.

(** Against C9 as stated: for the draw of the identity values on the base
    [f(x) = x] the mystery expression is [x], and the composer with all six
    transformations enabled and these values returns another expression. *)
Lemma C9_counterexample :
  mystery x (generate_challenge identity_draw) = Symbol "x" /\
  Composer x (all_enabled (generate_challenge identity_draw))
  <> mystery x (generate_challenge identity_draw).
Proof. split; [reflexivity | discriminate]. Qed.

(** C9, as the code has it.  The mystery expression is the composer's
    output on the same base expression with the drawn values, each
    reflection enabled as drawn and each shift or stretch enabled exactly
    when its drawn value is not the identity value ([h != 0], [b != 1],
    [a != 1], [k != 0]).  At every point it is worth what the composer's
    output with all six enabled is worth.  This holds for every parameter
    record, so for every draw from the menus. *)
Theorem C9_mystery_skips_identity_values (base : Expr) (p : ChallengeParameters) :
  mystery base p = Composer base (enabled_when_not_identity p) /\
  forall (fn : string -> list R -> R) (env : string -> R) (v : R),
    eval_at fn env (mystery base p) v = eval_at fn env (Composer base (all_enabled p)) v.
Proof.
  assert (Hsame : mystery base p = Composer base (enabled_when_not_identity p)).
  { unfold mystery. rewrite build_challenge_store, Composer_steps. reflexivity. }
  split; [exact Hsame |].
  intros fn env v. rewrite Hsame, !Composer_value.
  rewrite vertical_value_identity_skipped, horizontal_value_identity_skipped.
  reflexivity.
Qed.

(** ** The order of finite [float64] values *)

Ltac float_order :=
  unfold float_le, float_ge, SFleb, SFcompare;
  repeat match goal with
    | |- context [(?e1 ?= ?e2)%Z] => destruct (Z.compare_spec e1 e2)
    | |- context [Pos.compare_cont Eq ?m1 ?m2] =>
        change (Pos.compare_cont Eq m1 m2) with (Pos.compare m1 m2);
        destruct (Pos.compare_spec m1 m2)
    end;
  simpl; intros; subst; try reflexivity; try discriminate; try lia.

Lemma float_le_refl (v : float) : isfinite v = true -> float_le v v = true.
Proof. destruct v as [s | s | | s m e]; try discriminate; destruct s; intros _; float_order. Qed.

Lemma float_le_total (v w : float) :
  isfinite v = true -> isfinite w = true -> float_le v w = false -> float_le w v = true.
Proof.
  destruct v as [s | s | | s m e]; try discriminate;
    destruct w as [s' | s' | | s' m' e']; try discriminate;
    destruct s, s'; intros _ _; float_order.
Qed.

Lemma float_le_trans (u v w : float) :
  isfinite u = true -> isfinite v = true -> isfinite w = true ->
  float_le u v = true -> float_le v w = true -> float_le u w = true.
Proof.
  destruct u as [s | s | | s m e]; try discriminate;
    destruct v as [s' | s' | | s' m' e']; try discriminate;
    destruct w as [s'' | s'' | | s'' m'' e'']; try discriminate;
    destruct s, s', s''; intros _ _ _; float_order.
Qed.

Lemma isfinite_not_nan (v : float) : isfinite v = true -> isnan v = false.
Proof. destruct v; simpl; congruence. Qed.

(** ** [np.min] and [np.max] of finite entries *)

Lemma np_minimum_cases (v w : float) :
  isfinite v = true -> isfinite w = true ->
  (np_minimum v w = v \/ np_minimum v w = w) /\
  float_le (np_minimum v w) v = true /\ float_le (np_minimum v w) w = true.
Proof.
  intros Hv Hw. unfold np_minimum. rewrite (isfinite_not_nan v Hv), orb_false_r.
  destruct (float_le v w) eqn:Hle.
  - auto using float_le_refl.
  - auto using float_le_refl, float_le_total.
Qed.

Lemma np_maximum_cases (v w : float) :
  isfinite v = true -> isfinite w = true ->
  (np_maximum v w = v \/ np_maximum v w = w) /\
  float_le v (np_maximum v w) = true /\ float_le w (np_maximum v w) = true.
Proof.
  intros Hv Hw. unfold np_maximum, float_ge.
  rewrite (isfinite_not_nan v Hv), orb_false_r.
  destruct (float_le w v) eqn:Hle.
  - auto using float_le_refl.
  - auto using float_le_refl, float_le_total.
Qed.

Lemma np_min_spec (rest : list float) (first : float) :
  isfinite first = true -> Forall (fun v => isfinite v = true) rest ->
  isfinite (np_min first rest) = true /\ is_minimum (np_min first rest) (first :: rest).
Proof.
  revert first. unfold is_minimum.
  induction rest as [| w rest IH]; intros first Hfirst Hrest.
  - simpl. repeat split; auto.
    intros v [<- | []]. now apply float_le_refl.
  - inversion Hrest as [| ? ? Hw Hrest']; subst.
    destruct (np_minimum_cases first w Hfirst Hw) as (Hcase & Hle1 & Hle2).
    assert (Hacc : isfinite (np_minimum first w) = true)
      by (destruct Hcase as [-> | ->]; assumption).
    destruct (IH (np_minimum first w) Hacc Hrest') as (Hfin & Hin & Hlow).
    change (np_min first (w :: rest)) with (np_min (np_minimum first w) rest).
    split; [exact Hfin | split].
    + destruct Hin as [Hin | Hin].
      * rewrite <- Hin. destruct Hcase as [-> | ->]; simpl; auto.
      * simpl; auto.
    + assert (Hm : float_le (np_min (np_minimum first w) rest) (np_minimum first w) = true)
        by (apply Hlow; left; reflexivity).
      intros v [<- | [<- | Hv]].
      * apply float_le_trans with (np_minimum first w); assumption.
      * apply float_le_trans with (np_minimum first w); assumption.
      * apply Hlow. right. exact Hv.
Qed.

Lemma np_max_spec (rest : list float) (first : float) :
  isfinite first = true -> Forall (fun v => isfinite v = true) rest ->
  isfinite (np_max first rest) = true /\ is_maximum (np_max first rest) (first :: rest).
Proof.
  revert first. unfold is_maximum.
  induction rest as [| w rest IH]; intros first Hfirst Hrest.
  - simpl. repeat split; auto.
    intros v [<- | []]. now apply float_le_refl.
  - inversion Hrest as [| ? ? Hw Hrest']; subst.
    destruct (np_maximum_cases first w Hfirst Hw) as (Hcase & Hle1 & Hle2).
    assert (Hacc : isfinite (np_maximum first w) = true)
      by (destruct Hcase as [-> | ->]; assumption).
    destruct (IH (np_maximum first w) Hacc Hrest') as (Hfin & Hin & Hup).
    change (np_max first (w :: rest)) with (np_max (np_maximum first w) rest).
    split; [exact Hfin | split].
    + destruct Hin as [Hin | Hin].
      * rewrite <- Hin. destruct Hcase as [-> | ->]; simpl; auto.
      * simpl; auto.
    + assert (Hm : float_le (np_maximum first w) (np_max (np_maximum first w) rest) = true)
        by (apply Hup; left; reflexivity).
      intros v [<- | [<- | Hv]].
      * apply float_le_trans with (np_maximum first w); assumption.
      * apply float_le_trans with (np_maximum first w); assumption.
      * apply Hup. right. exact Hv.
Qed.

(** ** The y-limits *)

Lemma finite_y_spec (y_base y_trans : list float) (v : float) :
  In v (finite_y y_base y_trans) <-> In v (y_base ++ y_trans) /\ isfinite v = true.
Proof. unfold finite_y. apply filter_In. Qed.

Lemma finite_y_all_finite (y_base y_trans : list float) :
  Forall (fun v => isfinite v = true) (finite_y y_base y_trans).
Proof. apply Forall_forall. intros v Hv. apply finite_y_spec in Hv. tauto. Qed.

Lemma finite_y_constant (c : float) (n m : nat) :
  isfinite c = true -> finite_y (repeat c n) (repeat c m) = repeat c (n + m).
Proof.
  intros Hc. unfold finite_y. rewrite <- repeat_app.
  induction (n + m)%nat as [| j IH]; simpl; [reflexivity |].
  rewrite Hc, IH. reflexivity.
Qed.

Lemma np_min_constant (c : float) (j : nat) :
  isfinite c = true -> np_min c (repeat c j) = c.
Proof.
  intros Hc. unfold np_min. induction j as [| j IH]; simpl; [reflexivity |].
  unfold np_minimum at 2. rewrite (float_le_refl c Hc). simpl. exact IH.
Qed.

Lemma np_max_constant (c : float) (j : nat) :
  isfinite c = true -> np_max c (repeat c j) = c.
Proof.
  intros Hc. unfold np_max. induction j as [| j IH]; simpl; [reflexivity |].
  unfold np_maximum at 2. unfold float_ge. rewrite (float_le_refl c Hc). simpl. exact IH.
Qed.

(** C5. When the two series hold a finite value between them, the
    non-finite entries are dropped and the limits are
    [(ymin - padding, ymax + padding)]: [ymin] and [ymax] are the least and
    the greatest of the finite entries, [padding] is [(ymax - ymin) * 0.1],
    and 1 when [ymax] equals [ymin].  The series [1, 2, NaN] and
    [0, 5, Infinity] give [(-0.5, 5.5)]; two series constant at 4 give
    [(3, 5)]. *)
Theorem C5_padded_range :
  (forall y_base y_trans : list float,
      (exists v, In v (y_base ++ y_trans) /\ isfinite v = true) ->
      exists ymin ymax : float,
        (forall v, In v (finite_y y_base y_trans)
                   <-> In v (y_base ++ y_trans) /\ isfinite v = true) /\
        is_minimum ymin (finite_y y_base y_trans) /\
        is_maximum ymax (finite_y y_base y_trans) /\
        ylim y_base y_trans
        = (float_sub ymin (if SFeqb ymax ymin then lit_1
                           else float_mul (float_sub ymax ymin) lit_0_1),
           float_add ymax (if SFeqb ymax ymin then lit_1
                           else float_mul (float_sub ymax ymin) lit_0_1))) /\
  ylim [b64 1 0; b64 2 0; nan] [b64 0 0; b64 5 0; inf] = (b64 (-1) (-1), b64 11 (-1)) /\
  (forall n m : nat,
      (0 < n + m)%nat ->
      ylim (repeat (b64 4 0) n) (repeat (b64 4 0) m) = (b64 3 0, b64 5 0)).
Proof.
  split; [| split].
  - intros y_base y_trans (v0 & Hin0 & Hfin0).
    pose proof (finite_y_all_finite y_base y_trans) as Hall.
    assert (Hne : In v0 (finite_y y_base y_trans)) by (apply finite_y_spec; auto).
    unfold ylim, padding, float_ne.
    destruct (finite_y y_base y_trans) as [| first rest] eqn:Hfy; [destruct Hne |].
    inversion Hall as [| ? ? Hfirst Hrest]; subst.
    destruct (np_min_spec rest first Hfirst Hrest) as (_ & Hmin).
    destruct (np_max_spec rest first Hfirst Hrest) as (_ & Hmax).
    exists (np_min first rest), (np_max first rest).
    split; [| split; [exact Hmin | split; [exact Hmax |]]].
    + intros v. rewrite <- Hfy. apply finite_y_spec.
    + destruct (SFeqb (np_max first rest) (np_min first rest)); reflexivity.
  - vm_compute. reflexivity.
  - intros n m Hpos. unfold ylim.
    rewrite (finite_y_constant (b64 4 0) n m eq_refl).
    destruct (n + m)%nat as [| j]; [lia |].
    cbn [repeat].
    rewrite (np_min_constant (b64 4 0) j eq_refl), (np_max_constant (b64 4 0) j eq_refl).
    vm_compute. reflexivity.
Qed.

Lemma C5_witness :
  exists ymin ymax : float,
    (forall v, In v (finite_y [b64 1 0; nan] [inf; b64 5 0])
               <-> In v ([b64 1 0; nan] ++ [inf; b64 5 0]) /\ isfinite v = true) /\
    is_minimum ymin (finite_y [b64 1 0; nan] [inf; b64 5 0]) /\
    is_maximum ymax (finite_y [b64 1 0; nan] [inf; b64 5 0]) /\
    ylim [b64 1 0; nan] [inf; b64 5 0]
    = (float_sub ymin (if SFeqb ymax ymin then lit_1
                       else float_mul (float_sub ymax ymin) lit_0_1),
       float_add ymax (if SFeqb ymax ymin then lit_1
                       else float_mul (float_sub ymax ymin) lit_0_1)).
Proof.
  apply (proj1 C5_padded_range [b64 1 0; nan] [inf; b64 5 0]).
  exists (b64 1 0). split; [left; reflexivity | reflexivity].
Defined.

(** C6. When every entry of the two series is non-finite, the limits are
    the fixed pair [(-20, 20)]. *)
Theorem C6_fallback_range (y_base y_trans : list float) :
  (forall v, In v (y_base ++ y_trans) -> isfinite v = false) ->
  ylim y_base y_trans = (b64 (-20) 0, b64 20 0).
Proof.
  intros Hnone.
  assert (Hempty : finite_y y_base y_trans = []).
  { destruct (finite_y y_base y_trans) as [| first rest] eqn:Hfy; [reflexivity |].
    assert (Hin : In first (finite_y y_base y_trans)) by (rewrite Hfy; left; reflexivity).
    apply finite_y_spec in Hin. destruct Hin as (Hin & Hfin).
    rewrite (Hnone first Hin) in Hfin. discriminate Hfin. }
  unfold ylim. rewrite Hempty. reflexivity.
Qed.

Lemma C6_witness :
  ylim [nan; inf] [S754_infinity true; nan] = (b64 (-20) 0, b64 20 0).
Proof.
  apply (C6_fallback_range [nan; inf] [S754_infinity true; nan]).
  intros v Hin. simpl in Hin.
  destruct Hin as [<- | [<- | [<- | [<- | []]]]]; reflexivity.
Defined.

(** ** One run of the page, case by case *)

Section PageCases.
Variable sympify : string -> Expr + string.
Variable latex : Expr -> string.
Variable lambdify : Expr -> list float -> ndresult + string.
Variable grid : list float.
Variable sympy_raises : Expr -> TransformationSet -> option string.
Variable latex_raises : Expr -> option string.
Variable matplotlib_raises :
  list float -> list float -> list float -> float * float -> option string.

Lemma plottable_array (y : sampled) (ys : list float) :
  plottable grid y = Some ys ->
  y = np_array ys /\ List.length ys = List.length grid.
Proof.
  destruct y as [ys' | y']; simpl; [| discriminate].
  destruct (Nat.eqb_spec (List.length ys') (List.length grid)) as [Hlen | _];
    [| discriminate].
  intros Heq. injection Heq as <-. split; [reflexivity | exact Hlen].
Qed.

Lemma plottable_of_array (ys : list float) :
  List.length ys = List.length grid -> plottable grid (np_array ys) = Some ys.
Proof. intros Hlen. simpl. rewrite Hlen, Nat.eqb_refl. reflexivity. Qed.

(** What follows the chart holds no message of [st.error] and no chart. *)
Lemma challenge_part_plain (clicked : option Draw) (ss : session_state) (g : Globals) :
  filter is_error
    (fst (challenge_part latex sympy_raises latex_raises clicked ss g)) = [] /\
  filter is_pyplot
    (fst (challenge_part latex sympy_raises latex_raises clicked ss g)) = [] /\
  snd (challenge_part latex sympy_raises latex_raises clicked ss g) = button clicked ss.
Proof.
  unfold challenge_part. cbn [fst snd].
  destruct (button clicked ss) as [p |]; [| repeat split].
  destruct (sympy_raises (base_expr g) (enabled_when_not_identity p)); [repeat split |].
  destruct (latex_raises (challenge_expr (challenge_section (Some p) g)));
    repeat split.
Qed.

(** The five ways a run can go: a parse error; an exception before anything
    is shown; a sampling error; an exception while the figure is made; a
    chart, followed by the challenge part. *)
Lemma page_cases (user_input : string) (w : Widgets) (clicked : option Draw)
  (ss : session_state) :
  (exists message,
      sympify user_input = inr message /\
      page sympify latex lambdify grid sympy_raises latex_raises matplotlib_raises
        user_input w clicked ss
      = ([st_error ("Invalid function: " ++ message)%string], ss)) \/
  (exists base message,
      sympify user_input = inl base /\
      page sympify latex lambdify grid sympy_raises latex_raises matplotlib_raises
        user_input w clicked ss
      = ([uncaught_exception message], ss)) \/
  (exists base message,
      sympify user_input = inl base /\
      (sample lambdify grid base = inr message \/
       sample lambdify grid (Composer base (read_controls w)) = inr message) /\
      page sympify latex lambdify grid sympy_raises latex_raises matplotlib_raises
        user_input w clicked ss
      = ([st_latex ("y = " ++ latex (Composer base (read_controls w)))%string;
          st_error ("Error evaluating function: " ++ message)%string], ss)) \/
  (exists base message,
      sympify user_input = inl base /\
      page sympify latex lambdify grid sympy_raises latex_raises matplotlib_raises
        user_input w clicked ss
      = ([st_latex ("y = " ++ latex (Composer base (read_controls w)))%string;
          uncaught_exception message], ss)) \/
  (exists base y_base y_trans,
      sympify user_input = inl base /\
      sample lambdify grid base = inl (np_array y_base) /\
      sample lambdify grid (Composer base (read_controls w)) = inl (np_array y_trans) /\
      List.length y_base = List.length grid /\
      List.length y_trans = List.length grid /\
      page sympify latex lambdify grid sympy_raises latex_raises matplotlib_raises
        user_input w clicked ss
      = (st_latex ("y = " ++ latex (Composer base (read_controls w)))%string
         :: st_pyplot y_base y_trans (ylim y_base y_trans)
         :: fst (challenge_part latex sympy_raises latex_raises clicked ss
                   (build_transformed_expression (read_controls w) (after_parse base))),
         button clicked ss)).
Proof.
  unfold page. destruct (sympify user_input) as [base | message].
  2: { left. exists message. split; reflexivity. }
  right.
  destruct (sympy_raises base (read_controls w)) as [m0 |].
  { left. exists base, m0. split; reflexivity. }
  unfold display_and_plot, final_function_display.
  assert (Hbase : base_expr (build_transformed_expression (read_controls w)
                               (after_parse base)) = base)
    by (rewrite build_transformed_expression_store; reflexivity).
  assert (Htrans : transformed_expr (build_transformed_expression (read_controls w)
                                       (after_parse base))
                   = Composer base (read_controls w)) by reflexivity.
  rewrite Hbase, Htrans.
  destruct (latex_raises (Composer base (read_controls w))) as [m1 |].
  { left. exists base, m1. split; reflexivity. }
  right.
  destruct (sample lambdify grid base) as [sb | mb] eqn:Hsb.
  2: { left. exists base, mb. split; [reflexivity | split; [left; exact Hsb |]].
       destruct (sample lambdify grid (Composer base (read_controls w))); reflexivity. }
  destruct (sample lambdify grid (Composer base (read_controls w))) as [st | mt] eqn:Hst.
  2: { left. exists base, mt. split; [reflexivity | split; [right; exact Hst |]].
       reflexivity. }
  right. unfold figure. rewrite Hbase.
  destruct (latex_raises base) as [m2 |].
  { left. exists base, m2. split; reflexivity. }
  destruct (plottable grid sb) as [yb |] eqn:Hpb.
  2: { left. exists base, "x and y must have same first dimension"%string.
       split; reflexivity. }
  destruct (plottable grid st) as [yt |] eqn:Hpt.
  2: { left. exists base, "x and y must have same first dimension"%string.
       split; reflexivity. }
  destruct (matplotlib_raises grid yb yt (ylim yb yt)) as [m3 |].
  { left. exists base, m3. split; reflexivity. }
  right. exists base, yb, yt.
  destruct (plottable_array sb yb Hpb) as (-> & Hlb).
  destruct (plottable_array st yt Hpt) as (-> & Hlt).
  repeat (split; [reflexivity || assumption |]).
  destruct (challenge_part_plain clicked ss
              (build_transformed_expression (read_controls w) (after_parse base)))
    as (_ & _ & ->).
  reflexivity.
Qed.

(** A chart on the page: both curves were sampled, as arrays over the grid,
    from the parsed expression and from the composed one. *)
Lemma page_plot_samples
  (user_input : string) (w : Widgets) (clicked : option Draw) (ss : session_state)
  (base : Expr) (y_base y_trans : list float) (limits : float * float) :
  sympify user_input = inl base ->
  In (st_pyplot y_base y_trans limits)
     (fst (page sympify latex lambdify grid sympy_raises latex_raises matplotlib_raises
             user_input w clicked ss)) ->
  sample lambdify grid base = inl (np_array y_base) /\
  sample lambdify grid (Composer base (read_controls w)) = inl (np_array y_trans).
Proof.
  intros Hparse Hin.
  destruct (page_cases user_input w clicked ss)
    as [(m & Hp & Hpage) | [(b0 & m & Hp & Hpage) | [(b0 & m & Hp & _ & Hpage)
       | [(b0 & m & Hp & Hpage) | (b0 & yb & yt & Hp & Hyb & Hyt & _ & _ & Hpage)]]]];
    rewrite Hpage in Hin; cbn [fst] in Hin.
  - destruct Hin as [Hin | []]; discriminate Hin.
  - destruct Hin as [Hin | []]; discriminate Hin.
  - destruct Hin as [Hin | [Hin | []]]; discriminate Hin.
  - destruct Hin as [Hin | [Hin | []]]; discriminate Hin.
  - rewrite Hparse in Hp. injection Hp as <-.
    destruct Hin as [Hin | [Hin | Hin]]; [discriminate Hin | |].
    + injection Hin as <- <- _. split; assumption.
    + exfalso.
      destruct (challenge_part_plain clicked ss
                  (build_transformed_expression (read_controls w) (after_parse base)))
        as (_ & Hnone & _).
      assert (Hin' : In (st_pyplot y_base y_trans limits)
                       (filter is_pyplot
                          (fst (challenge_part latex sympy_raises latex_raises clicked ss
                                  (build_transformed_expression (read_controls w)
                                     (after_parse base))))))
        by (apply filter_In; split; [exact Hin | reflexivity]).
      rewrite Hnone in Hin'. destruct Hin'.
Qed.

(** A parse error: the message, and nothing else. *)
Lemma page_plot_only_after_parse
  (user_input : string) (w : Widgets) (clicked : option Draw) (ss : session_state)
  (message : string) :
  sympify user_input = inr message ->
  page sympify latex lambdify grid sympy_raises latex_raises matplotlib_raises
    user_input w clicked ss
  = ([st_error ("Invalid function: " ++ message)%string], ss).
Proof. intros Hparse. unfold page. rewrite Hparse. reflexivity. Qed.

End PageCases.


(** ** Sampling *)




Section NumPyProperties.
Variable np_function : string -> option (list float -> float).
Variable np_power : float -> float -> float.



End NumPyProperties.




(** ** Objects: nothing is written in place *)

Lemma extends_refl (H : heap) : extends H H.
Proof. exists []. symmetry. apply app_nil_r. Qed.

Lemma extends_trans (H1 H2 H3 : heap) : extends H1 H2 -> extends H2 H3 -> extends H1 H3.
Proof. intros (m1 & ->) (m2 & ->). exists (m1 ++ m2). symmetry. apply app_assoc. Qed.

Lemma extends_alloc (o : object) (H : heap) : extends H (fst (alloc o H)).
Proof. exists [o]. reflexivity. Qed.

Lemma nth_error_extends (H H' : heap) (p : addr) (o : object) :
  extends H H' -> nth_error H p = Some o -> nth_error H' p = Some o.
Proof.
  intros (more & ->) Hp. rewrite nth_error_app1; [exact Hp |].
  apply nth_error_Some. rewrite Hp. discriminate.
Qed.

Lemma nth_error_alloc (o : object) (H : heap) :
  nth_error (fst (alloc o H)) (snd (alloc o H)) = Some o.
Proof. simpl. rewrite nth_error_app2, Nat.sub_diag by apply Nat.le_refl. reflexivity. Qed.

Lemma all_some_cons {A : Type} (o : option A) (l : list (option A)) (vs : list A) :
  all_some (o :: l) = Some vs ->
  exists v rest, o = Some v /\ all_some l = Some rest /\ vs = v :: rest.
Proof.
  simpl. destruct o as [v |]; [| discriminate].
  destruct (all_some l) as [rest |]; simpl; [| discriminate].
  intros Heq. injection Heq as <-. exists v, rest. repeat split.
Qed.

Lemma all_some_map_impl (f g : addr -> option Expr) (args : list addr) (es : list Expr) :
  (forall arg e, f arg = Some e -> g arg = Some e) ->
  all_some (map f args) = Some es -> all_some (map g args) = Some es.
Proof.
  intros Himpl. revert es. induction args as [| arg rest IH]; intros es Hall.
  - exact Hall.
  - cbn [map] in *. apply all_some_cons in Hall.
    destruct Hall as (v & vs & Hv & Hrest & ->).
    simpl. rewrite (Himpl _ _ Hv), (IH _ Hrest). reflexivity.
Qed.

(** What an object stands for is the same with more fuel and in a heap with
    more objects. *)
Lemma read_stable (fuel : nat) :
  forall (fuel' : nat) (H H' : heap) (p : addr) (e : Expr),
    (fuel <= fuel')%nat -> extends H H' ->
    read fuel H p = Some e -> read fuel' H' p = Some e.
Proof.
  induction fuel as [| fuel IH]; intros fuel' H H' p e Hle Hext Hread;
    [discriminate Hread |].
  destruct fuel' as [| fuel']; [lia |].
  assert (Hle' : (fuel <= fuel')%nat) by lia.
  cbn [read] in *.
  destruct (nth_error H p) as [o |] eqn:Hp; [| discriminate Hread].
  rewrite (nth_error_extends H H' p o Hext Hp).
  destruct o as [n | s | args | args | b ex | f args]; try exact Hread.
  - destruct (all_some (map (read fuel H) args)) as [es |] eqn:Hargs;
      [| discriminate Hread].
    rewrite (all_some_map_impl (read fuel H) (read fuel' H') args es
               (fun arg e' => IH fuel' H H' arg e' Hle' Hext) Hargs).
    exact Hread.
  - destruct (all_some (map (read fuel H) args)) as [es |] eqn:Hargs;
      [| discriminate Hread].
    rewrite (all_some_map_impl (read fuel H) (read fuel' H') args es
               (fun arg e' => IH fuel' H H' arg e' Hle' Hext) Hargs).
    exact Hread.
  - destruct (read fuel H b) as [eb |] eqn:Hb; [| discriminate Hread].
    destruct (read fuel H ex) as [ee |] eqn:He; [| discriminate Hread].
    rewrite (IH fuel' H H' b eb Hle' Hext Hb), (IH fuel' H H' ex ee Hle' Hext He).
    exact Hread.
  - destruct (all_some (map (read fuel H) args)) as [es |] eqn:Hargs;
      [| discriminate Hread].
    rewrite (all_some_map_impl (read fuel H) (read fuel' H') args es
               (fun arg e' => IH fuel' H H' arg e' Hle' Hext) Hargs).
    exact Hread.
Qed.

Lemma read_needs_fuel (fuel : nat) (H : heap) (p : addr) (e : Expr) :
  read fuel H p = Some e -> (1 <= fuel)%nat.
Proof. destruct fuel; [discriminate | lia]. Qed.

Lemma nth_error_last (H : heap) (o : object) :
  nth_error (H ++ [o]) (List.length H) = Some o.
Proof. rewrite nth_error_app2, Nat.sub_diag by apply Nat.le_refl. reflexivity. Qed.

Lemma read_number (fuel : nat) (H : heap) (q : addr) (c : Number) :
  (1 <= fuel)%nat -> nth_error H q = Some (ONum c) -> read fuel H q = Some (Num c).
Proof. destruct fuel; [lia |]. intros _ Hq. simpl. rewrite Hq. reflexivity. Qed.

Lemma read_Add_node (fuel : nat) (H : heap) (q : addr) (args : list addr)
  (es : list Expr) :
  nth_error H q = Some (OAdd args) ->
  all_some (map (read fuel H) args) = Some es ->
  read (S fuel) H q = Some (Add es).
Proof. intros Hq Hargs. simpl. rewrite Hq, Hargs. reflexivity. Qed.

Lemma read_Mul_node (fuel : nat) (H : heap) (q : addr) (args : list addr)
  (es : list Expr) :
  nth_error H q = Some (OMul args) ->
  all_some (map (read fuel H) args) = Some es ->
  read (S fuel) H q = Some (Mul es).
Proof. intros Hq Hargs. simpl. rewrite Hq, Hargs. reflexivity. Qed.

Lemma read_Function_node (fuel : nat) (H : heap) (q : addr) (f : string)
  (args : list addr) (es : list Expr) :
  nth_error H q = Some (OFunction f args) ->
  all_some (map (read fuel H) args) = Some es ->
  read (S fuel) H q = Some (Function f es).
Proof. intros Hq Hargs. simpl. rewrite Hq, Hargs. reflexivity. Qed.

Lemma read_Pow_node (fuel : nat) (H : heap) (q b ex : addr) (eb ee : Expr) :
  nth_error H q = Some (OPow b ex) ->
  read fuel H b = Some eb -> read fuel H ex = Some ee ->
  read (S fuel) H q = Some (Pow eb ee).
Proof. intros Hq Hb He. simpl. rewrite Hq, Hb, He. reflexivity. Qed.

Lemma all_some_two (o1 o2 : option Expr) (e1 e2 : Expr) :
  o1 = Some e1 -> o2 = Some e2 -> all_some [o1; o2] = Some [e1; e2].
Proof. intros -> ->. reflexivity. Qed.

(** The five operators of the script on objects: the heap grows, and the
    new object stands for the tree over what the operand stands for. *)
Lemma obj_Mul_spec (c : Number) (p : addr) (H : heap) (fuel : nat) (e : Expr) :
  read fuel H p = Some e ->
  extends H (fst (obj_Mul c p H)) /\
  read (S fuel) (fst (obj_Mul c p H)) (snd (obj_Mul c p H)) = Some (Mul_unevaluated c e).
Proof.
  intros Hread. pose proof (read_needs_fuel fuel H p e Hread) as Hfuel.
  unfold obj_Mul, alloc, Mul_unevaluated. cbn [fst snd].
  assert (Hext : extends H ((H ++ [ONum c]) ++ [OMul [List.length H; p]])).
  { exists [ONum c; OMul [List.length H; p]]. rewrite <- app_assoc. reflexivity. }
  split; [exact Hext |].
  apply (read_Mul_node fuel _ _ [List.length H; p]); [apply nth_error_last |].
  apply all_some_two.
  - apply read_number; [exact Hfuel |].
    rewrite nth_error_app1 by (rewrite length_app; simpl; lia). apply nth_error_last.
  - exact (read_stable fuel fuel H _ p e (Nat.le_refl _) Hext Hread).
Qed.

Lemma obj_Add_spec (c : Number) (p : addr) (H : heap) (fuel : nat) (e : Expr) :
  read fuel H p = Some e ->
  extends H (fst (obj_Add p c H)) /\
  read (S fuel) (fst (obj_Add p c H)) (snd (obj_Add p c H)) = Some (Add_unevaluated e c).
Proof.
  intros Hread. pose proof (read_needs_fuel fuel H p e Hread) as Hfuel.
  unfold obj_Add, alloc, Add_unevaluated. cbn [fst snd].
  assert (Hext : extends H ((H ++ [ONum c]) ++ [OAdd [p; List.length H]])).
  { exists [ONum c; OAdd [p; List.length H]]. rewrite <- app_assoc. reflexivity. }
  split; [exact Hext |].
  apply (read_Add_node fuel _ _ [p; List.length H]); [apply nth_error_last |].
  apply all_some_two.
  - exact (read_stable fuel fuel H _ p e (Nat.le_refl _) Hext Hread).
  - apply read_number; [exact Hfuel |].
    rewrite nth_error_app1 by (rewrite length_app; simpl; lia). apply nth_error_last.
Qed.

Lemma obj_sub_spec (c : pynum) (p : addr) (H : heap) (fuel : nat) (e : Expr) :
  read fuel H p = Some e ->
  extends H (fst (obj_sub p c H)) /\
  read (S fuel) (fst (obj_sub p c H)) (snd (obj_sub p c H)) = Some (expr_sub e c).
Proof. apply (obj_Add_spec (Number_neg (sympify_num c)) p H fuel e). Qed.

Lemma obj_rmul_spec (c : pynum) (p : addr) (H : heap) (fuel : nat) (e : Expr) :
  read fuel H p = Some e ->
  extends H (fst (obj_rmul c p H)) /\
  read (S fuel) (fst (obj_rmul c p H)) (snd (obj_rmul c p H)) = Some (expr_rmul c e).
Proof. apply (obj_Mul_spec (sympify_num c) p H fuel e). Qed.

Lemma obj_neg_spec (p : addr) (H : heap) (fuel : nat) (e : Expr) :
  read fuel H p = Some e ->
  extends H (fst (obj_neg p H)) /\
  read (S fuel) (fst (obj_neg p H)) (snd (obj_neg p H)) = Some (expr_neg e).
Proof. apply (obj_Mul_spec (Integer (-1)) p H fuel e). Qed.

(** An optional step: the heap grows or stays, and the reference stands for
    the tree with or without the step. *)
Lemma obj_when_spec (c : bool) (op : addr -> heap -> heap * addr) (step : Expr -> Expr)
  (st : heap * addr) (fuel : nat) (e : Expr) :
  (forall p H fuel e,
      read fuel H p = Some e ->
      extends H (fst (op p H)) /\
      read (S fuel) (fst (op p H)) (snd (op p H)) = Some (step e)) ->
  read fuel (fst st) (snd st) = Some e ->
  extends (fst st) (fst (obj_when c op st)) /\
  read (S fuel) (fst (obj_when c op st)) (snd (obj_when c op st))
  = Some (if c then step e else e).
Proof.
  intros Hop Hread. unfold obj_when. destruct c.
  - apply Hop. exact Hread.
  - split; [apply extends_refl |].
    apply (read_stable fuel (S fuel) (fst st) (fst st) (snd st) e);
      [lia | apply extends_refl | exact Hread].
Qed.

Lemma obj_horizontal_spec (ts : TransformationSet) (st : heap * addr) (fuel : nat)
  (e : Expr) :
  read fuel (fst st) (snd st) = Some e ->
  extends (fst st) (fst (obj_horizontal ts st)) /\
  read (3 + fuel) (fst (obj_horizontal ts st)) (snd (obj_horizontal ts st))
  = Some (horizontal_steps ts e).
Proof.
  intros Hread. unfold obj_horizontal, horizontal_steps.
  destruct (obj_when_spec (apply_hshift ts) (fun p => obj_sub p (h ts))
              (fun e => expr_sub e (h ts)) st fuel e
              (fun p H f e' => obj_sub_spec (h ts) p H f e') Hread) as (Hext1 & Hread1).
  destruct (obj_when_spec (apply_hstretch ts) (obj_rmul (b ts)) (expr_rmul (b ts))
              _ _ _ (obj_rmul_spec (b ts)) Hread1) as (Hext2 & Hread2).
  destruct (obj_when_spec (apply_reflect_y ts) obj_neg expr_neg
              _ _ _ obj_neg_spec Hread2) as (Hext3 & Hread3).
  split; [| exact Hread3].
  eapply extends_trans; [| exact Hext3]. eapply extends_trans; eassumption.
Qed.

Lemma obj_vertical_spec (ts : TransformationSet) (st : heap * addr) (fuel : nat)
  (e : Expr) :
  read fuel (fst st) (snd st) = Some e ->
  extends (fst st) (fst (obj_vertical ts st)) /\
  read (3 + fuel) (fst (obj_vertical ts st)) (snd (obj_vertical ts st))
  = Some (vertical_steps ts e).
Proof.
  intros Hread. unfold obj_vertical, vertical_steps.
  destruct (obj_when_spec (apply_vstretch ts) (obj_Mul (sympify_num (a ts)))
              (Mul_unevaluated (sympify_num (a ts))) st fuel e
              (obj_Mul_spec (sympify_num (a ts))) Hread) as (Hext1 & Hread1).
  destruct (obj_when_spec (apply_reflect_x ts) (obj_Mul (Integer (-1)))
              (Mul_unevaluated (Integer (-1))) _ _ _
              (obj_Mul_spec (Integer (-1))) Hread1) as (Hext2 & Hread2).
  destruct (obj_when_spec (apply_vshift ts) (fun p => obj_Add p (sympify_num (k ts)))
              (fun e => Add_unevaluated e (sympify_num (k ts))) _ _ _
              (fun p H f e' => obj_Add_spec (sympify_num (k ts)) p H f e') Hread2)
    as (Hext3 & Hread3).
  split; [| exact Hread3].
  eapply extends_trans; [| exact Hext3]. eapply extends_trans; eassumption.
Qed.

(** ** [subs] on objects *)

Lemma rebuild_spec (node : list addr -> object) (H H' : heap) (p : addr)
  (args args' : list addr) :
  nth_error H p = Some (node args) -> extends H H' ->
  exists H'' p',
    rebuild (Some (H', args')) node args p = Some (H'', p') /\
    extends H' H'' /\
    nth_error H'' p' = Some (node args').
Proof.
  intros Hp Hext. unfold rebuild.
  destruct (list_eq_dec Nat.eq_dec args' args) as [-> | _].
  - exists H', p. repeat split; [apply extends_refl |].
    apply (nth_error_extends H H' p _ Hext Hp).
  - exists (fst (alloc (node args') H')), (snd (alloc (node args') H')).
    repeat split; [apply extends_alloc | apply nth_error_alloc].
Qed.

Section SubsOnObjects.
Variable old : string.
Variable new : addr.
Variable t : Expr.
Variable ft : nat.

Lemma walk_list_spec (fuel : nat) (walk : addr -> heap -> option (heap * addr)) :
  walk_spec old new t ft fuel walk ->
  forall (args : list addr) (H : heap) (es : list Expr),
    read ft H new = Some t ->
    all_some (map (read fuel H) args) = Some es ->
    exists H' args',
      walk_list walk args H = Some (H', args') /\
      extends H H' /\
      all_some (map (read (fuel + ft) H') args') = Some (map (subs old t) es).
Proof.
  intros Hwalk. induction args as [| arg rest IH]; intros H es Hnew Hall.
  - injection Hall as <-. exists H, []. repeat split. apply extends_refl.
  - cbn [map] in Hall. apply all_some_cons in Hall.
    destruct Hall as (e1 & es' & Harg & Hrest & ->).
    destruct (Hwalk H arg e1 Hnew Harg) as (H1 & arg' & Hw1 & Hext1 & Hread1).
    assert (Hnew1 : read ft H1 new = Some t)
      by (apply (read_stable ft ft H H1 new t (Nat.le_refl _) Hext1 Hnew)).
    assert (Hrest1 : all_some (map (read fuel H1) rest) = Some es').
    { apply (all_some_map_impl (read fuel H) (read fuel H1) rest es'); [| exact Hrest].
      intros a e' Ha. apply (read_stable fuel fuel H H1 a e' (Nat.le_refl _) Hext1 Ha). }
    destruct (IH H1 es' Hnew1 Hrest1) as (H2 & rest' & Hw2 & Hext2 & Hread2).
    exists H2, (arg' :: rest'). split; [| split].
    + cbn [walk_list]. rewrite Hw1, Hw2. reflexivity.
    + apply (extends_trans H H1 H2 Hext1 Hext2).
    + cbn [map all_some].
      rewrite (read_stable (fuel + ft) (fuel + ft) H1 H2 arg' _ (Nat.le_refl _) Hext2 Hread1).
      rewrite Hread2. reflexivity.
Qed.

(** A node whose arguments were walked: what [rebuild] returns stands for
    the node over the substituted arguments. *)
Lemma rebuild_after_walk (fuel : nat) (walk : addr -> heap -> option (heap * addr))
  (node : list addr -> object) (H : heap) (p : addr) (args : list addr) (es : list Expr) :
  walk_spec old new t ft fuel walk ->
  read ft H new = Some t ->
  nth_error H p = Some (node args) ->
  all_some (map (read fuel H) args) = Some es ->
  exists H' p' args',
    rebuild (walk_list walk args H) node args p = Some (H', p') /\
    extends H H' /\
    nth_error H' p' = Some (node args') /\
    all_some (map (read (fuel + ft) H') args') = Some (map (subs old t) es).
Proof.
  intros Hwalk Hnew Hp Hall.
  destruct (walk_list_spec fuel walk Hwalk args H es Hnew Hall)
    as (H1 & args' & Hw & Hext1 & Hread1).
  destruct (rebuild_spec node H H1 p args args' Hp Hext1) as (H2 & p' & Hr & Hext2 & Hp').
  exists H2, p', args'. rewrite Hw. split; [exact Hr | split; [| split; [exact Hp' |]]].
  - apply (extends_trans H H1 H2 Hext1 Hext2).
  - apply (all_some_map_impl (read (fuel + ft) H1) (read (fuel + ft) H2) args' _);
      [| exact Hread1].
    intros a e' Ha.
    apply (read_stable (fuel + ft) (fuel + ft) H1 H2 a e' (Nat.le_refl _) Hext2 Ha).
Qed.

Lemma obj_subs_walk_spec (fuel : nat) :
  walk_spec old new t ft fuel (obj_subs_walk fuel old new).
Proof.
  induction fuel as [| fuel IH]; intros H p e Hnew Hread; [discriminate Hread |].
  pose proof Hread as Hnode. cbn [read] in Hnode.
  destruct (nth_error H p) as [o |] eqn:Hp; [| discriminate Hnode].
  destruct o as [n | s | args | args | b ex | f args].
  - injection Hnode as <-. exists H, p. cbn [obj_subs_walk]. rewrite Hp.
    repeat split; [apply extends_refl |].
    apply (read_stable (S fuel) (S fuel + ft) H H p _);
      [lia | apply extends_refl | exact Hread].
  - injection Hnode as <-. cbn [obj_subs_walk subs]. rewrite Hp.
    destruct (String.eqb s old).
    + exists H, new. repeat split; [apply extends_refl |].
      apply (read_stable ft (S fuel + ft) H H new t);
        [lia | apply extends_refl | exact Hnew].
    + exists H, p. repeat split; [apply extends_refl |].
      apply (read_stable (S fuel) (S fuel + ft) H H p _);
        [lia | apply extends_refl | exact Hread].
  - destruct (all_some (map (read fuel H) args)) as [es |] eqn:Hargs;
      [| discriminate Hnode].
    injection Hnode as <-.
    destruct (rebuild_after_walk fuel (obj_subs_walk fuel old new) OAdd H p args es
                IH Hnew Hp Hargs) as (H' & p' & args' & Hr & Hext & Hp' & Hread').
    exists H', p'. cbn [obj_subs_walk]. rewrite Hp.
    split; [exact Hr | split; [exact Hext |]].
    apply (read_Add_node (fuel + ft) H' p' args' _ Hp' Hread').
  - destruct (all_some (map (read fuel H) args)) as [es |] eqn:Hargs;
      [| discriminate Hnode].
    injection Hnode as <-.
    destruct (rebuild_after_walk fuel (obj_subs_walk fuel old new) OMul H p args es
                IH Hnew Hp Hargs) as (H' & p' & args' & Hr & Hext & Hp' & Hread').
    exists H', p'. cbn [obj_subs_walk]. rewrite Hp.
    split; [exact Hr | split; [exact Hext |]].
    apply (read_Mul_node (fuel + ft) H' p' args' _ Hp' Hread').
  - destruct (read fuel H b) as [eb |] eqn:Hb; [| discriminate Hnode].
    destruct (read fuel H ex) as [ee |] eqn:He; [| discriminate Hnode].
    injection Hnode as <-.
    destruct (rebuild_after_walk fuel (obj_subs_walk fuel old new)
                (fun l => OPow (nth 0%nat l b) (nth 1%nat l ex)) H p [b; ex] [eb; ee]
                IH Hnew Hp (all_some_two _ _ eb ee Hb He))
      as (H' & p' & args' & Hr & Hext & Hp' & Hread').
    exists H', p'. cbn [obj_subs_walk]. rewrite Hp.
    split; [exact Hr | split; [exact Hext |]].
    destruct args' as [| b' [| e' [| extra args']]]; cbn [map] in Hread'.
    + discriminate Hread'.
    + apply all_some_cons in Hread'. destruct Hread' as (? & ? & _ & Hnil & Heq).
      injection Hnil as <-. discriminate Heq.
    + apply all_some_cons in Hread'. destruct Hread' as (v1 & r1 & Hb' & Hrest & Heq).
      apply all_some_cons in Hrest. destruct Hrest as (v2 & r2 & He' & _ & ->).
      injection Heq as <- <-.
      apply (read_Pow_node (fuel + ft) H' p' b' e' _ _ Hp' Hb' He').
    + exfalso. apply all_some_cons in Hread'. destruct Hread' as (v1 & r1 & _ & Hrest & Heq).
      apply all_some_cons in Hrest. destruct Hrest as (v2 & r2 & _ & Hrest & ->).
      apply all_some_cons in Hrest. destruct Hrest as (v3 & r3 & _ & _ & ->).
      discriminate Heq.
  - destruct (all_some (map (read fuel H) args)) as [es |] eqn:Hargs;
      [| discriminate Hnode].
    injection Hnode as <-.
    destruct (rebuild_after_walk fuel (obj_subs_walk fuel old new) (OFunction f)
                H p args es IH Hnew Hp Hargs)
      as (H' & p' & args' & Hr & Hext & Hp' & Hread').
    exists H', p'. cbn [obj_subs_walk]. rewrite Hp.
    split; [exact Hr | split; [exact Hext |]].
    apply (read_Function_node (fuel + ft) H' p' f args' _ Hp' Hread').
Qed.

(** [subs] on objects returns, in a heap that still holds every object it
    was given, an object that stands for the substituted tree. *)
Lemma obj_subs_spec (fuel : nat) (H : heap) (p : addr) (e : Expr) :
  read ft H new = Some t ->
  read fuel H p = Some e ->
  exists H' p',
    obj_subs fuel old new p H = Some (H', p') /\
    extends H H' /\
    read (fuel + ft) H' p' = Some (subs old t e).
Proof.
  intros Hnew Hread. unfold obj_subs.
  destruct (nth_error H new) as [[n | s | args | args | b ex | f args] |] eqn:Hobj;
    try apply (obj_subs_walk_spec fuel H p e Hnew Hread).
  destruct (String.eqb_spec s old) as [-> | _];
    [| apply (obj_subs_walk_spec fuel H p e Hnew Hread)].
  assert (Ht : t = Symbol old).
  { destruct ft as [| ft']; [discriminate Hnew |].
    simpl in Hnew. rewrite Hobj in Hnew. injection Hnew as <-. reflexivity. }
  exists H, p. rewrite Ht, subs_same_symbol.
  repeat split; [apply extends_refl |].
  apply (read_stable fuel (fuel + ft) H H p e); [lia | apply extends_refl | exact Hread].
Qed.
End SubsOnObjects.

(** ** The base expression is left alone *)

Lemma read_symbol (H : heap) (p : addr) (s : string) :
  nth_error H p = Some (OSymbol s) -> read 1%nat H p = Some (Symbol s).
Proof. intros Hp. simpl. rewrite Hp. reflexivity. Qed.

(** Two readings of one object give one tree. *)
Lemma read_same_object (f1 f2 : nat) (H : heap) (p : addr) (e1 e2 : Expr) :
  read f1 H p = Some e1 -> read f2 H p = Some e2 -> e1 = e2.
Proof.
  intros H1 H2.
  pose proof (read_stable f1 (Nat.max f1 f2) H H p e1 (Nat.le_max_l _ _)
                (extends_refl H) H1) as H1'.
  pose proof (read_stable f2 (Nat.max f1 f2) H H p e2 (Nat.le_max_r _ _)
                (extends_refl H) H2) as H2'.
  congruence.
Qed.

(** Lines 59-74 on objects: the heap afterwards holds every object of the
    heap before, and [transformed_expr] names an object that stands for the
    composed expression. *)
Lemma obj_composer_spec (fuel : nat) (ts : TransformationSet) (x_obj base_obj : addr)
  (H : heap) (base : Expr) :
  nth_error H x_obj = Some (OSymbol "x") ->
  read fuel H base_obj = Some base ->
  exists H' names,
    obj_composer fuel ts x_obj base_obj H = Some (H', names) /\
    extends H H' /\
    name_x names = x_obj /\
    name_base_expr names = base_obj /\
    read (3 + (fuel + 4)) H' (name_transformed_expr names) = Some (Composer base ts).
Proof.
  intros Hx Hbase.
  destruct (obj_horizontal_spec ts (H, x_obj) 1 x (read_symbol H x_obj "x" Hx))
    as (Hext1 & Hinput).
  cbn [fst snd] in Hext1.
  pose proof (read_stable fuel fuel H _ base_obj base (Nat.le_refl _) Hext1 Hbase)
    as Hbase1.
  destruct (obj_subs_spec "x" _ (horizontal_steps ts x) 4 fuel _ base_obj base
              Hinput Hbase1) as (H2 & p2 & Hsubs & Hext2 & Hread2).
  destruct (obj_vertical_spec ts (H2, p2) (fuel + 4) _ Hread2) as (Hext3 & Hread3).
  cbn [fst snd] in Hext3.
  exists (fst (obj_vertical ts (H2, p2))),
    {| name_x := x_obj;
       name_base_expr := base_obj;
       name_input_expr := snd (obj_horizontal ts (H, x_obj));
       name_transformed_expr := snd (obj_vertical ts (H2, p2)) |}.
  split; [| split; [| split; [reflexivity | split; [reflexivity |]]]].
  - unfold obj_composer. rewrite Hsubs. reflexivity.
  - apply (extends_trans _ _ _ Hext1). apply (extends_trans _ _ _ Hext2 Hext3).
  - cbn [name_transformed_expr]. rewrite Composer_steps. exact Hread3.
Qed.

(** With no box ticked nothing is allocated, and [transformed_expr] names
    the object [base_expr] names. *)
Lemma obj_composer_no_step (fuel : nat) (ts : TransformationSet) (x_obj base_obj : addr)
  (H : heap) :
  nth_error H x_obj = Some (OSymbol "x") ->
  apply_hshift ts = false -> apply_hstretch ts = false -> apply_reflect_y ts = false ->
  apply_vshift ts = false -> apply_vstretch ts = false -> apply_reflect_x ts = false ->
  obj_composer fuel ts x_obj base_obj H
  = Some (H, {| name_x := x_obj; name_base_expr := base_obj;
                name_input_expr := x_obj; name_transformed_expr := base_obj |}).
Proof.
  intros Hx H1 H2 H3 H4 H5 H6.
  unfold obj_composer, obj_horizontal, obj_vertical, obj_when.
  rewrite H1, H2, H3, H4, H5, H6. cbn [fst snd]. unfold obj_subs.
  rewrite Hx. rewrite String.eqb_refl. reflexivity.
Qed.

(** C10. Lines 59-74 on SymPy objects, for every transformation set and
    every heap in which [x] names the symbol and [base_expr] names an object
    standing for the parsed expression [base]: the composer returns; every
    object of the heap before is in the heap after, unchanged, so whatever
    could be read before reads the same; [base_expr] names the same object,
    and it still stands for [base]; [transformed_expr] names an object whose
    value at every point is the vertical steps applied to the value of
    [base] at the horizontal steps of the point, and, wherever that value
    differs from the value of [base], it is another object than the one
    [base_expr] names.  In the script's variables, the composer and the
    challenge section leave [base_expr] as it was; and when the page shows a
    chart, its base curve is the sample of [base] and its other curve the
    sample of the composed expression. *)
Theorem C10_base_expr_not_mutated
  (sympify : string -> Expr + string) (latex : Expr -> string)
  (lambdify : Expr -> list float -> ndresult + string) (grid : list float)
  (sympy_raises : Expr -> TransformationSet -> option string)
  (latex_raises : Expr -> option string)
  (matplotlib_raises :
     list float -> list float -> list float -> float * float -> option string)
  (user_input : string) (w : Widgets) (clicked : option Draw) (ss : session_state)
  (fuel : nat) (ts : TransformationSet) (H : heap) (x_obj base_obj : addr)
  (base : Expr) :
  sympify user_input = inl base ->
  nth_error H x_obj = Some (OSymbol "x") ->
  read fuel H base_obj = Some base ->
  (exists H' names,
      obj_composer fuel ts x_obj base_obj H = Some (H', names) /\
      (forall p o, nth_error H p = Some o -> nth_error H' p = Some o) /\
      (forall f p e, read f H p = Some e -> read f H' p = Some e) /\
      name_base_expr names = base_obj /\
      read fuel H' (name_base_expr names) = Some base /\
      (exists fuel' e',
          read fuel' H' (name_transformed_expr names) = Some e' /\
          forall (fn : string -> list R -> R) (env : string -> R) (v : R),
            eval_at fn env e' v
            = vertical_value ts (eval_at fn env base (horizontal_value ts v))) /\
      (forall (fn : string -> list R -> R) (env : string -> R) (v : R),
          vertical_value ts (eval_at fn env base (horizontal_value ts v))
          <> eval_at fn env base v ->
          name_transformed_expr names <> name_base_expr names)) /\
  (forall g : Globals, base_expr (build_transformed_expression ts g) = base_expr g) /\
  (forall (state : session_state) (g : Globals),
      base_expr (challenge_section state (build_transformed_expression ts g))
      = base_expr g) /\
  (forall (y_base y_trans : list float) (limits : float * float),
      In (st_pyplot y_base y_trans limits)
         (fst (page sympify latex lambdify grid sympy_raises latex_raises
                 matplotlib_raises user_input w clicked ss)) ->
      sample lambdify grid base = inl (np_array y_base) /\
      sample lambdify grid (Composer base (read_controls w)) = inl (np_array y_trans)).
Proof.
  intros Hparse Hx Hbase. split; [| split; [| split]].
  - destruct (obj_composer_spec fuel ts x_obj base_obj H base Hx Hbase)
      as (H' & names & Hrun & Hext & _ & Hname & Htrans).
    assert (Hkept : forall f p e, read f H p = Some e -> read f H' p = Some e).
    { intros f p e Hread.
      apply (read_stable f f H H' p e (Nat.le_refl _) Hext Hread). }
    exists H', names. split; [exact Hrun |].
    split; [intros p o; apply (nth_error_extends H H' p o Hext) |].
    split; [exact Hkept |].
    split; [exact Hname |].
    split; [rewrite Hname; apply Hkept; exact Hbase |].
    split.
    { exists (3 + (fuel + 4))%nat, (Composer base ts).
      split; [exact Htrans | intros fn env v; apply Composer_value]. }
    intros fn env v Hdiff Hsame. apply Hdiff. rewrite Hsame, Hname in Htrans.
    rewrite <- Composer_value.
    rewrite (read_same_object _ _ H' base_obj _ _ Htrans (Hkept _ _ _ Hbase)).
    reflexivity.
  - intros g. rewrite build_transformed_expression_store. reflexivity.
  - intros [p |] g; simpl.
    + rewrite build_challenge_store, build_transformed_expression_store. reflexivity.
    + rewrite build_transformed_expression_store. reflexivity.
  - intros y_base y_trans limits.
    apply (page_plot_samples sympify latex lambdify grid sympy_raises latex_raises
             matplotlib_raises user_input w clicked ss base y_base y_trans limits Hparse).
Qed.

(** The heap [x], [2], [x**2] with the horizontal shift at [1] and the
    horizontal stretch at [2]: [base_expr] still reads [x**2], the
    transformed expression is another object, and the chart's base curve
    [1, 4] is not its other curve [0, 4]. *)
Lemma C10_witness :
  exists (H' : heap) (names : Names),
    obj_composer 3 (read_controls shift_1_stretch_2) 0%nat 2%nat heap_x_squared
    = Some (H', names) /\
    read 3 H' (name_base_expr names) = Some x_squared /\
    name_transformed_expr names <> name_base_expr names /\
    sample (numpy_lambdify no_function nan_power) [b64 1 0; b64 2 0] x_squared
    = inl (np_array [b64 1 0; b64 4 0]) /\
    sample (numpy_lambdify no_function nan_power) [b64 1 0; b64 2 0]
      (Composer x_squared (read_controls shift_1_stretch_2))
    = inl (np_array [b64 0 0; b64 4 0]).
Proof.
  destruct (C10_base_expr_not_mutated
              parse_as_x_squared print_nothing (numpy_lambdify no_function nan_power)
              [b64 1 0; b64 2 0] sympy_returns latex_returns matplotlib_returns
              EmptyString shift_1_stretch_2 None None
              3%nat (read_controls shift_1_stretch_2) heap_x_squared 0%nat 2%nat
              x_squared eq_refl eq_refl eq_refl)
    as ((H' & names & Hrun & _ & _ & _ & Hbase & _ & Hother) & _ & _ & Hpage).
  exists H', names.
  split; [exact Hrun |]. split; [exact Hbase |].
  split.
  { apply (Hother zero_fn zero_env 1%R). rewrite !eval_at_x_squared.
    unfold vertical_value, horizontal_value, py_R, Q2R; simpl. lra. }
  apply (Hpage [b64 1 0; b64 4 0] [b64 0 0; b64 4 0]
           (ylim [b64 1 0; b64 4 0] [b64 0 0; b64 4 0])).
  vm_compute. right. left. reflexivity.
Defined.

(** * Further properties of the script *)

(** ** The transformed function in closed form *)

Lemma horizontal_value_read_controls (w : Widgets) (v : R) :
  horizontal_value (read_controls w) v
  = (reflect_sign (apply_reflect_y (read_controls w))
     * (py_R (b (read_controls w)) * (v - py_R (h (read_controls w)))))%R.
Proof.
  unfold horizontal_value, read_controls, reflect_sign, py_R.
  cbn [apply_hshift apply_hstretch apply_reflect_y h b].
  destruct (checkbox_hshift w), (checkbox_hstretch w), (checkbox_reflect_y w);
    cbn [sympify_num Number_value]; unfold Q2R; simpl; lra.
Qed.

Lemma vertical_value_read_controls (w : Widgets) (y : R) :
  vertical_value (read_controls w) y
  = (reflect_sign (apply_reflect_x (read_controls w))
     * (py_R (a (read_controls w)) * y) + py_R (k (read_controls w)))%R.
Proof.
  unfold vertical_value, read_controls, reflect_sign, py_R.
  cbn [apply_vshift apply_vstretch apply_reflect_x a k].
  destruct (checkbox_vshift w), (checkbox_vstretch w), (checkbox_reflect_x w);
    cbn [sympify_num Number_value]; unfold Q2R; simpl; lra.
Qed.

(** X1. Whatever boxes are ticked, the transformed function of the page is
    [y = sx * a * f(sy * b * (x - h)) + k], with the values the script holds
    in [h], [b], [a], [k] and the signs of the two reflections: an unticked
    box leaves the identity value in its variable (lines 43-54), so the
    steps it skips (lines 60-74) are the ones the formula makes trivial. *)
Theorem X1_transformed_function_formula
  (fn : string -> list R -> R) (env : string -> R) (base : Expr) (w : Widgets) (v : R) :
  eval_at fn env (Composer base (read_controls w)) v
  = (reflect_sign (apply_reflect_x (read_controls w))
     * (py_R (a (read_controls w))
        * eval_at fn env base
            (reflect_sign (apply_reflect_y (read_controls w))
             * (py_R (b (read_controls w)) * (v - py_R (h (read_controls w))))))
     + py_R (k (read_controls w)))%R.
Proof.
  rewrite Composer_value, vertical_value_read_controls, horizontal_value_read_controls.
  reflexivity.
Qed.

(** X2. With the stretch slider in its range (b > 0), every point
    [(u, f(u))] of the base curve has its image on the transformed curve at
    [x = h + sy * u / b], with ordinate [sx * a * f(u) + k]: the graph moves
    right by [h], is compressed by [b], scaled by [a] and moved up by [k],
    as the slider labels say. *)
Theorem X2_graph_points
  (fn : string -> list R -> R) (env : string -> R) (base : Expr) (w : Widgets) (u : R) :
  (0 < slider_b w)%Q ->
  eval_at fn env (Composer base (read_controls w))
    (py_R (h (read_controls w))
     + reflect_sign (apply_reflect_y (read_controls w)) * u / py_R (b (read_controls w)))%R
  = (reflect_sign (apply_reflect_x (read_controls w))
     * (py_R (a (read_controls w)) * eval_at fn env base u)
     + py_R (k (read_controls w)))%R.
Proof.
  intros Hb.
  assert (Hpos : (0 < py_R (b (read_controls w)))%R).
  { unfold read_controls, py_R. cbn [b]. destruct (checkbox_hstretch w);
      cbn [sympify_num Number_value].
    - replace 0%R with (Q2R 0) by (unfold Q2R; simpl; lra). apply Qlt_Rlt. exact Hb.
    - unfold Q2R; simpl; lra. }
  rewrite Composer_value, vertical_value_read_controls, horizontal_value_read_controls.
  set (B := py_R (b (read_controls w))) in *.
  set (H := py_R (h (read_controls w))).
  replace (reflect_sign (apply_reflect_y (read_controls w))
           * (B * (H + reflect_sign (apply_reflect_y (read_controls w)) * u / B - H)))%R
    with u.
  - reflexivity.
  - unfold reflect_sign. destruct (apply_reflect_y (read_controls w)); field; lra.
Qed.

Lemma X2_witness :
  eval_at zero_fn zero_env (Composer x_squared (read_controls shift_1_stretch_2))
    (py_R (h (read_controls shift_1_stretch_2))
     + reflect_sign (apply_reflect_y (read_controls shift_1_stretch_2)) * 3
       / py_R (b (read_controls shift_1_stretch_2)))%R
  = (reflect_sign (apply_reflect_x (read_controls shift_1_stretch_2))
     * (py_R (a (read_controls shift_1_stretch_2)) * eval_at zero_fn zero_env x_squared 3)
     + py_R (k (read_controls shift_1_stretch_2)))%R.
Proof.
  apply (X2_graph_points zero_fn zero_env x_squared shift_1_stretch_2 3). reflexivity.
Defined.

(** ** A base expression without [x] *)

Lemma subs_absent (old : string) (t e : Expr) :
  ~ In old (symbols e) -> subs old t e = e.
Proof.
  induction e as [n | s' | args IH | args IH | base IHb ex IHe | f args IH]
    using Expr_nested_ind; cbn [subs symbols]; intros Habsent.
  - reflexivity.
  - destruct (String.eqb_spec s' old) as [-> | _]; [| reflexivity].
    exfalso. apply Habsent. left. reflexivity.
  - f_equal. induction IH as [| a0 l Ha _ IHl]; [reflexivity |].
    simpl in Habsent. rewrite in_app_iff in Habsent. simpl. f_equal; tauto.
  - f_equal. induction IH as [| a0 l Ha _ IHl]; [reflexivity |].
    simpl in Habsent. rewrite in_app_iff in Habsent. simpl. f_equal; tauto.
  - rewrite in_app_iff in Habsent. f_equal; tauto.
  - f_equal. induction IH as [| a0 l Ha _ IHl]; [reflexivity |].
    simpl in Habsent. rewrite in_app_iff in Habsent. simpl. f_equal; tauto.
Qed.

(** X4. On a base expression in which [x] does not occur (a constant
    function) the three horizontal transformations do nothing: the result is
    the one with their boxes unticked, and with no vertical box ticked
    either it is the base expression itself. *)
Theorem X4_horizontal_steps_need_x (base : Expr) (ts : TransformationSet) :
  ~ In "x"%string (symbols base) ->
  Composer base ts = Composer base (vertical_only ts) /\
  Composer base (horizontal_only ts) = base.
Proof.
  intros Habsent. rewrite !Composer_steps.
  rewrite !(subs_absent "x" _ base Habsent).
  split; [| unfold vertical_steps; cbn [apply_vstretch apply_reflect_x apply_vshift
                                          horizontal_only]]; reflexivity.
Qed.

Lemma X4_witness :
  Composer (Num (Integer 5)) (read_controls shift_1_stretch_2)
  = Composer (Num (Integer 5)) (vertical_only (read_controls shift_1_stretch_2)) /\
  Composer (Num (Integer 5)) (horizontal_only (read_controls shift_1_stretch_2))
  = Num (Integer 5).
Proof.
  apply (X4_horizontal_steps_need_x (Num (Integer 5)) (read_controls shift_1_stretch_2)).
  intros [].
Defined.

(** ** The two halves of the composer *)

Lemma horizontal_value_vertical_only (ts : TransformationSet) (v : R) :
  horizontal_value (vertical_only ts) v = v.
Proof. reflexivity. Qed.

Lemma vertical_value_horizontal_only (ts : TransformationSet) (y : R) :
  vertical_value (horizontal_only ts) y = y.
Proof. reflexivity. Qed.

(** X5. The composer is its horizontal half followed by its vertical half:
    composing the base expression with the horizontal boxes only and the
    result with the vertical boxes only gives the expression the composer
    builds in one go.  The other way round, vertical boxes first, gives an
    expression with the same value at every point. *)
Theorem X5_horizontal_and_vertical_halves (base : Expr) (ts : TransformationSet) :
  Composer (Composer base (horizontal_only ts)) (vertical_only ts) = Composer base ts /\
  (forall (fn : string -> list R -> R) (env : string -> R) (v : R),
      eval_at fn env (Composer (Composer base (vertical_only ts)) (horizontal_only ts)) v
      = eval_at fn env (Composer base ts) v).
Proof.
  split.
  - rewrite !Composer_steps.
    change (horizontal_steps (vertical_only ts) x) with x.
    change (subs "x" x) with (subs "x" (Symbol "x")). rewrite subs_same_symbol.
    reflexivity.
  - intros fn env v. rewrite !Composer_value.
    rewrite vertical_value_horizontal_only, horizontal_value_vertical_only.
    reflexivity.
Qed.

(** ** More on the y-limits *)

Lemma filter_isfinite_twice (l : list float) :
  filter isfinite (filter isfinite l) = filter isfinite l.
Proof.
  induction l as [| v l IH]; simpl; [reflexivity |].
  destruct (isfinite v) eqn:Hv; simpl; rewrite ?Hv, IH; reflexivity.
Qed.

(** X6. Only the finite samples count for the limits: the limits of two
    series are those of the series with every infinity and NaN taken out,
    wherever they stand and however many they are. *)
Theorem X6_limits_of_finite_samples (y_base y_trans : list float) :
  ylim y_base y_trans = ylim (filter isfinite y_base) (filter isfinite y_trans).
Proof.
  unfold ylim, finite_y. rewrite !filter_app, !filter_isfinite_twice. reflexivity.
Qed.

Lemma float_eq_refl (v : float) : isfinite v = true -> SFeqb v v = true.
Proof.
  destruct v as [s | s | | s m e]; try discriminate; destruct s; intros _;
    unfold SFeqb; float_order.
Qed.

Lemma all_equal_repeat (c : float) (l : list float) :
  (forall v, In v l -> v = c) -> l = repeat c (List.length l).
Proof.
  induction l as [| v l IH]; intros Hall; simpl; [reflexivity |].
  rewrite (Hall v (or_introl eq_refl)). f_equal. apply IH.
  intros v' Hin. apply Hall. right. exact Hin.
Qed.

(** X7. When all the finite samples of the two curves are one and the same
    value [c] (a constant function, or one that is constant where it is
    defined), the padding is 1 and the limits are [(c - 1, c + 1)], in
    binary64 arithmetic. *)
Theorem X7_limits_of_constant_curves (c : float) (y_base y_trans : list float) :
  isfinite c = true ->
  In c (y_base ++ y_trans) ->
  (forall v, In v (y_base ++ y_trans) -> isfinite v = true -> v = c) ->
  ylim y_base y_trans = (float_sub c lit_1, float_add c lit_1).
Proof.
  intros Hc Hin Hall.
  assert (Hin' : In c (finite_y y_base y_trans)) by (apply finite_y_spec; auto).
  assert (Hrep : finite_y y_base y_trans
                 = repeat c (List.length (finite_y y_base y_trans))).
  { apply all_equal_repeat. intros v Hv. apply finite_y_spec in Hv.
    destruct Hv as (Hv & Hfin). auto. }
  unfold ylim. rewrite Hrep.
  destruct (List.length (finite_y y_base y_trans)) as [| j] eqn:Hlen.
  - rewrite Hrep in Hin'. destruct Hin'.
  - cbn [repeat]. rewrite (np_min_constant c j Hc), (np_max_constant c j Hc).
    unfold padding, float_ne. rewrite (float_eq_refl c Hc). reflexivity.
Qed.

Lemma X7_witness :
  ylim [nan; b64 7 0] [b64 7 0; inf] = (float_sub (b64 7 0) lit_1, float_add (b64 7 0) lit_1).
Proof.
  apply (X7_limits_of_constant_curves (b64 7 0) [nan; b64 7 0] [b64 7 0; inf]).
  - reflexivity.
  - right. left. reflexivity.
  - intros v Hin Hfin. simpl in Hin.
    destruct Hin as [<- | [<- | [<- | [<- | []]]]];
      try reflexivity; discriminate Hfin.
Defined.

(** ** What one run of the page shows *)

Lemma challenge_expr_after_composer (base : Expr) (ts : TransformationSet)
  (p : ChallengeParameters) :
  challenge_expr
    (challenge_section (Some p) (build_transformed_expression ts (after_parse base)))
  = mystery base p.
Proof.
  cbn [challenge_section].
  rewrite build_challenge_store, build_transformed_expression_store.
  cbn [challenge_expr base_expr after_parse].
  unfold mystery. rewrite build_challenge_store. reflexivity.
Qed.

(** X8. Every run of the page ends in one of three ways: one error message
    and no chart; one chart and no error message; or neither, and then the
    box of an uncaught exception, raised where the script has no [try].  It
    never shows an error message and a chart, never two charts, never two
    error messages, whatever the libraries return or raise. *)
Theorem X8_error_chart_or_uncaught_exception
  (sympify : string -> Expr + string) (latex : Expr -> string)
  (lambdify : Expr -> list float -> ndresult + string) (grid : list float)
  (sympy_raises : Expr -> TransformationSet -> option string)
  (latex_raises : Expr -> option string)
  (matplotlib_raises :
     list float -> list float -> list float -> float * float -> option string)
  (user_input : string) (w : Widgets) (clicked : option Draw) (ss : session_state) :
  let out := fst (page sympify latex lambdify grid sympy_raises latex_raises
                    matplotlib_raises user_input w clicked ss) in
  (List.length (filter is_error out) = 1%nat /\
   List.length (filter is_pyplot out) = 0%nat /\
   existsb is_uncaught out = false) \/
  (List.length (filter is_error out) = 0%nat /\
   List.length (filter is_pyplot out) = 1%nat) \/
  (List.length (filter is_error out) = 0%nat /\
   List.length (filter is_pyplot out) = 0%nat /\
   existsb is_uncaught out = true).
Proof.
  intros out. subst out.
  destruct (page_cases sympify latex lambdify grid sympy_raises latex_raises
              matplotlib_raises user_input w clicked ss)
    as [(m & _ & ->) | [(b0 & m & _ & ->) | [(b0 & m & _ & _ & ->)
       | [(b0 & m & _ & ->) | (b0 & yb & yt & _ & _ & _ & _ & _ & ->)]]]];
    cbn [fst filter is_error is_pyplot is_uncaught existsb List.length orb].
  - left. repeat split.
  - right. right. repeat split.
  - left. repeat split.
  - right. right. repeat split.
  - right. left.
    destruct (challenge_part_plain latex sympy_raises latex_raises clicked ss
                (build_transformed_expression (read_controls w) (after_parse b0)))
      as (-> & -> & _).
    split; reflexivity.
Qed.

(** X9. A click on the challenge button is taken only in a run that gets as
    far as the chart: [st.stop()] after a parse or a sampling error, and an
    exception before the chart, leave the session state as it was, and the
    click is lost. *)
Theorem X9_click_needs_a_chart
  (sympify : string -> Expr + string) (latex : Expr -> string)
  (lambdify : Expr -> list float -> ndresult + string) (grid : list float)
  (sympy_raises : Expr -> TransformationSet -> option string)
  (latex_raises : Expr -> option string)
  (matplotlib_raises :
     list float -> list float -> list float -> float * float -> option string)
  (user_input : string) (w : Widgets) (clicked : option Draw) (ss : session_state) :
  snd (page sympify latex lambdify grid sympy_raises latex_raises matplotlib_raises
         user_input w clicked ss)
  = if existsb is_pyplot
         (fst (page sympify latex lambdify grid sympy_raises latex_raises
                 matplotlib_raises user_input w clicked ss))
    then button clicked ss
    else ss.
Proof.
  destruct (page_cases sympify latex lambdify grid sympy_raises latex_raises
              matplotlib_raises user_input w clicked ss)
    as [(m & _ & ->) | [(b0 & m & _ & ->) | [(b0 & m & _ & _ & ->)
       | [(b0 & m & _ & ->) | (b0 & yb & yt & _ & _ & _ & _ & _ & ->)]]]];
    reflexivity.
Qed.

(** X10. A run in which the libraries raise nothing, both samples are
    arrays over the grid, and a parameter record is held (drawn in this run
    or kept from an earlier one): the page is the typeset transformed
    function, the chart, the typeset mystery expression and the prompt, in
    this order.  The mystery expression is built from the base expression
    of this run and the held record, and the record is kept. *)
Theorem X10_challenge_follows_the_base
  (sympify : string -> Expr + string) (latex : Expr -> string)
  (lambdify : Expr -> list float -> ndresult + string) (grid : list float)
  (sympy_raises : Expr -> TransformationSet -> option string)
  (latex_raises : Expr -> option string)
  (matplotlib_raises :
     list float -> list float -> list float -> float * float -> option string)
  (user_input : string) (w : Widgets) (clicked : option Draw) (ss : session_state)
  (base : Expr) (y_base y_trans : list float) (p : ChallengeParameters) :
  sympify user_input = inl base ->
  sympy_raises base (read_controls w) = None ->
  latex_raises (Composer base (read_controls w)) = None ->
  sample lambdify grid base = inl (np_array y_base) ->
  sample lambdify grid (Composer base (read_controls w)) = inl (np_array y_trans) ->
  latex_raises base = None ->
  List.length y_base = List.length grid ->
  List.length y_trans = List.length grid ->
  matplotlib_raises grid y_base y_trans (ylim y_base y_trans) = None ->
  button clicked ss = Some p ->
  sympy_raises base (enabled_when_not_identity p) = None ->
  latex_raises (mystery base p) = None ->
  page sympify latex lambdify grid sympy_raises latex_raises matplotlib_raises
    user_input w clicked ss
  = ([st_latex ("y = " ++ latex (Composer base (read_controls w)))%string;
      st_pyplot y_base y_trans (ylim y_base y_trans);
      st_latex ("\text{Transformed Function: } y = " ++ latex (mystery base p))%string;
      st_info "Can you guess the values of h, k, a, b and whether it was reflected?"],
     Some p).
Proof.
  intros Hparse Hsympy Hlatex Hyb Hyt Hlatex_base Hlb Hlt Hplot Hheld Hsympy' Hlatex'.
  unfold page. rewrite Hparse, Hsympy.
  unfold display_and_plot, final_function_display.
  assert (Hbase : base_expr (build_transformed_expression (read_controls w)
                               (after_parse base)) = base)
    by (rewrite build_transformed_expression_store; reflexivity).
  assert (Htrans : transformed_expr (build_transformed_expression (read_controls w)
                                       (after_parse base))
                   = Composer base (read_controls w)) by reflexivity.
  rewrite Hbase, Htrans, Hlatex, Hyb, Hyt.
  unfold figure. rewrite Hbase, Hlatex_base.
  rewrite (plottable_of_array grid y_base Hlb), (plottable_of_array grid y_trans Hlt).
  rewrite Hplot.
  unfold challenge_part. cbn [fst snd]. rewrite Hheld, Hbase, Hsympy'.
  rewrite challenge_expr_after_composer, Hlatex'.
  unfold challenge_display. rewrite challenge_expr_after_composer. reflexivity.
Qed.

(** The base [x**2] with the vertical boxes at [2], reflection and [3], a
    click that draws [h = 2] and [a = 2], NumPy's arithmetic as sampler on
    the grid [1, 2]: the base curve is [1, 4], the other curve [1, -5]. *)
Lemma X10_witness :
  page parse_as_x_squared print_shape (numpy_lambdify no_function nan_power)
    [b64 1 0; b64 2 0] sympy_returns latex_returns matplotlib_returns
    EmptyString stretch_2_reflect_shift_3 (Some draw_h_2_a_2) None
  = ([st_latex ("y = " ++ print_shape
                  (Composer x_squared (read_controls stretch_2_reflect_shift_3)))%string;
      st_pyplot [b64 1 0; b64 4 0] [b64 1 0; b64 (-5) 0]
        (ylim [b64 1 0; b64 4 0] [b64 1 0; b64 (-5) 0]);
      st_latex ("\text{Transformed Function: } y = "
                ++ print_shape (mystery x_squared (generate_challenge draw_h_2_a_2)))%string;
      st_info "Can you guess the values of h, k, a, b and whether it was reflected?"],
     Some (generate_challenge draw_h_2_a_2)).
Proof.
  apply (X10_challenge_follows_the_base parse_as_x_squared print_shape
           (numpy_lambdify no_function nan_power) [b64 1 0; b64 2 0]
           sympy_returns latex_returns matplotlib_returns
           EmptyString stretch_2_reflect_shift_3 (Some draw_h_2_a_2) None x_squared
           [b64 1 0; b64 4 0] [b64 1 0; b64 (-5) 0] (generate_challenge draw_h_2_a_2));
    vm_compute; reflexivity.
Defined.

(** ** The draws of the challenge *)

Lemma choice_reaches {A : Type} (menu : list A) (fallback v : A) :
  In v menu -> exists r, choice menu fallback r = v.
Proof.
  intros Hin. destruct (In_nth menu v fallback Hin) as (n & Hlt & Hnth).
  exists n. unfold choice. rewrite Nat.mod_small by exact Hlt. exact Hnth.
Qed.

(** X11. Whatever the random indices are, the drawn values come from the
    menus of lines 125-130, so both stretch factors of a challenge are
    positive; and every combination of menu values is drawn by some
    indices. *)
Theorem X11_draws_and_menus :
  (forall r : Draw,
      In (true_h (generate_challenge r)) [PyInt 0; PyInt 2; PyInt (-3)] /\
      In (true_k (generate_challenge r)) [PyInt 0; PyInt 3; PyInt (-2)] /\
      In (true_a (generate_challenge r)) [PyInt 1; PyInt 2] /\
      In (true_b (generate_challenge r)) [PyInt 1; PyFloat (1 # 2)] /\
      (0 < py_value (true_a (generate_challenge r)))%Q /\
      (0 < py_value (true_b (generate_challenge r)))%Q) /\
  (forall (vh vk va vb : pynum) (rx ry : bool),
      In vh [PyInt 0; PyInt 2; PyInt (-3)] ->
      In vk [PyInt 0; PyInt 3; PyInt (-2)] ->
      In va [PyInt 1; PyInt 2] ->
      In vb [PyInt 1; PyFloat (1 # 2)] ->
      exists r : Draw,
        generate_challenge r
        = {| true_h := vh; true_k := vk; true_a := va; true_b := vb;
             reflect_x := rx; reflect_y := ry |}).
Proof.
  split.
  - intros r.
    assert (Hh : In (true_h (generate_challenge r)) [PyInt 0; PyInt 2; PyInt (-3)])
      by (apply nth_In, Nat.mod_upper_bound; discriminate).
    assert (Hk : In (true_k (generate_challenge r)) [PyInt 0; PyInt 3; PyInt (-2)])
      by (apply nth_In, Nat.mod_upper_bound; discriminate).
    assert (Ha : In (true_a (generate_challenge r)) [PyInt 1; PyInt 2])
      by (apply nth_In, Nat.mod_upper_bound; discriminate).
    assert (Hb : In (true_b (generate_challenge r)) [PyInt 1; PyFloat (1 # 2)])
      by (apply nth_In, Nat.mod_upper_bound; discriminate).
    repeat split; try assumption.
    + destruct Ha as [<- | [<- | []]]; reflexivity.
    + destruct Hb as [<- | [<- | []]]; reflexivity.
  - intros vh vk va vb rx ry Hh Hk Ha Hb.
    destruct (choice_reaches _ (PyInt 0) vh Hh) as (nh & Hnh).
    destruct (choice_reaches _ (PyInt 0) vk Hk) as (nk & Hnk).
    destruct (choice_reaches _ (PyInt 1) va Ha) as (na & Hna).
    destruct (choice_reaches _ (PyInt 1) vb Hb) as (nb & Hnb).
    exists {| r_h := nh; r_k := nk; r_a := na; r_b := nb;
              r_x := if rx then 0 else 1; r_y := if ry then 0 else 1 |}.
    unfold generate_challenge. cbn [r_h r_k r_a r_b r_x r_y].
    rewrite Hnh, Hnk, Hna, Hnb. destruct rx, ry; reflexivity.
Qed.

Lemma X11_witness :
  exists r : Draw,
    generate_challenge r
    = {| true_h := PyInt (-3); true_k := PyInt 3; true_a := PyInt 2;
         true_b := PyFloat (1 # 2); reflect_x := true; reflect_y := false |}.
Proof.
  apply (proj2 X11_draws_and_menus (PyInt (-3)) (PyInt 3) (PyInt 2) (PyFloat (1 # 2))
           true false); simpl; auto.
Defined.

(** ** The sampling grid *)

Lemma linspace_length (start stop : float) (num : nat) :
  List.length (linspace start stop num) = num.
Proof.
  unfold linspace.
  set (y := map (fun v => float_add v start) _).
  assert (Hy : List.length y = num).
  { unfold y. rewrite length_map.
    destruct (0 <? num - 1)%nat; [destruct (SFeqb _ _) |];
      rewrite !length_map, length_seq; reflexivity. }
  destruct (Nat.ltb_spec 1 num) as [Hnum | Hnum]; [| exact Hy].
  rewrite length_app. simpl.
  destruct y as [| v y']; [simpl in Hy; lia |].
  rewrite removelast_firstn_len, length_firstn. simpl in *. lia.
Qed.

(** X12. [np.linspace] returns as many points as asked for, and with two
    points or more the last one is [stop] itself.  The grid of the page,
    [np.linspace(-15, 15, 1000)], runs from -15 to 15 in 1000 finite,
    strictly increasing steps, and none of its points is zero: the two
    nearest to zero are the 500th and the 501st, one on each side, so a
    function such as [1/x] is never sampled at its pole. *)
Theorem X12_sampling_grid :
  (forall (start stop : float) (num : nat),
      List.length (linspace start stop num) = num /\
      ((1 < num)%nat -> last (linspace start stop num) start = stop)) /\
  List.length x_vals = 1000%nat /\
  hd nan x_vals = b64 (-15) 0 /\
  last x_vals nan = b64 15 0 /\
  strictly_increasing x_vals = true /\
  (forall v, In v x_vals -> isfinite v = true /\ SFeqb v (b64 0 0) = false) /\
  SFltb (nth 499 x_vals nan) (b64 0 0) = true /\
  SFltb (b64 0 0) (nth 500 x_vals nan) = true.
Proof.
  assert (Hfinite : forallb isfinite x_vals = true) by (vm_compute; reflexivity).
  assert (Hnonzero : forallb (fun v => negb (SFeqb v (b64 0 0))) x_vals = true)
    by (vm_compute; reflexivity).
  rewrite forallb_forall in Hfinite, Hnonzero.
  split; [| split; [| split; [| split; [| split; [| split; [| split]]]]]].
  - intros start stop num. split; [apply linspace_length |].
    intros Hnum. unfold linspace.
    destruct (Nat.ltb_spec 1 num) as [_ | Hle]; [| lia].
    apply last_last.
  - vm_compute. reflexivity.
  - vm_compute. reflexivity.
  - vm_compute. reflexivity.
  - vm_compute. reflexivity.
  - intros v Hin. split; [apply Hfinite, Hin | apply negb_true_iff, Hnonzero, Hin].
  - vm_compute. reflexivity.
  - vm_compute. reflexivity.
Qed.

Lemma X12_witness : last (linspace (b64 0 0) (b64 1 0) 3) (b64 0 0) = b64 1 0.
Proof.
  apply (proj2 (proj1 X12_sampling_grid (b64 0 0) (b64 1 0) 3%nat)). repeat constructor.
Defined.
